(** * pskc.parse: reading PSKC key containers

    A shallow embedding of [pskc/parse.py] (python-pskc) and of the part of
    the Python run time it calls: exceptions, [str.strip], [int], and the
    [find]/[findall] queries of [xml.etree.ElementTree] with their
    [ElementPath] compiler.  The library side follows CPython 3.11; text
    is a sequence of code points below 256. *)

From Stdlib Require Import ZArith Ascii String.
From stdpp Require Import base option list strings gmap.

Set Warnings "-register-all".
Local Open Scope string_scope.

(** ** The Python run time *)

Module Py.

(** The exceptions that can travel through the module.  [Unmodelled] is
    not a Python exception: it marks a library feature that lies outside
    the embedding (see [ElementPath.ops]). *)
Inductive exn : Type :=
| StopIteration
| KeyError (key : string)
| SyntaxError (msg : string)
| ValueError (msg : string)
| AttributeError (msg : string)
| TypeError (msg : string)
| RuntimeError (msg : string)
| LookupError (msg : string)
| OSError
| ET_ParseError
| Unmodelled (feature : string).

(** A computation either returns a value or raises. *)
Inductive Exc (A : Type) : Type :=
| Return (a : A)
| Raise (e : exn).
Arguments Return {A} a.
Arguments Raise {A} e.

Definition bind {A B} (c : Exc A) (k : A -> Exc B) : Exc B :=
  match c with
  | Return a => k a
  | Raise e => Raise e
  end.

(** [try: c except StopIteration: h] *)
Definition except_StopIteration {A} (c : Exc A) (h : Exc A) : Exc A :=
  match c with
  | Raise StopIteration => h
  | _ => c
  end.

(** [str.isspace] on one character: TAB, LF, VT, FF, CR, the separators
    FS GS RS US, space, NEL and the no-break space. *)
Definition isspace (c : ascii) : bool :=
  let n := nat_of_ascii c in
  (((9 <=? n) && (n <=? 13)) || ((28 <=? n) && (n <=? 32))
   || (n =? 133) || (n =? 160))%nat.

Fixpoint lstrip (s : string) : string :=
  match s with
  | String c r => if isspace c then lstrip r else s
  | EmptyString => EmptyString
  end.

Fixpoint rstrip (s : string) : string :=
  match s with
  | EmptyString => EmptyString
  | String c r =>
      match rstrip r with
      | EmptyString => if isspace c then EmptyString else String c EmptyString
      | r' => String c r'
      end
  end.

(** [s.strip()] *)
Definition strip (s : string) : string := rstrip (lstrip s).

(** [o.strip()] where [o] may be [None]: the attribute lookup on
    [None] raises. *)
Definition strip_method (o : option string) : Exc string :=
  match o with
  | Some s => Return (strip s)
  | None => Raise (AttributeError "'NoneType' object has no attribute 'strip'")
  end.

Definition digit (c : ascii) : option Z :=
  let n := nat_of_ascii c in
  if ((48 <=? n) && (n <=? 57))%nat then Some (Z.of_nat (n - 48)) else None.

(** The whitespace that [int] skips around a literal: the class of C's
    [isspace] below 127, that of [str.isspace] above. *)
Definition int_space (c : ascii) : bool :=
  let n := nat_of_ascii c in
  (((9 <=? n) && (n <=? 13)) || (n =? 32) || (n =? 133) || (n =? 160))%nat.

Fixpoint skip_left (s : string) : string :=
  match s with
  | String c r => if int_space c then skip_left r else s
  | EmptyString => EmptyString
  end.

Fixpoint skip_right (s : string) : string :=
  match s with
  | EmptyString => EmptyString
  | String c r =>
      match skip_right r with
      | EmptyString => if int_space c then EmptyString else String c EmptyString
      | r' => String c r'
      end
  end.

(** [sys.get_int_max_str_digits()], at its default. *)
Definition int_max_str_digits : Z := 4300.

(** The scan over the digits of a literal, up to the first character that
    is neither a digit nor an underscore: the value by Horner's rule, the
    number of digits, and the text left.  An underscore stands between
    two digits: it is never doubled and never last. *)
Fixpoint scan (acc count : Z) (after_underscore : bool) (s : string)
  : option (Z * Z * string) :=
  match s with
  | EmptyString =>
      if after_underscore then None else Some (acc, count, EmptyString)
  | String c r =>
      if Ascii.eqb c "_" then
        if after_underscore then None else scan acc count true r
      else
        match digit c with
        | Some d => scan (10 * acc + d) (count + 1) false r
        | None => if after_underscore then None else Some (acc, count, s)
        end
  end.

(** The two messages of [int], each cut before the part that quotes its
    argument. *)
Definition invalid_literal : exn :=
  ValueError "invalid literal for int() with base 10".

Definition exceeds_limit : exn :=
  ValueError "Exceeds the limit (4300 digits) for integer string conversion".

(** An unsigned literal: it does not start with an underscore, has no
    more digits than the conversion limit, has a digit, and nothing
    follows it. *)
Definition unsigned (s : string) : Exc Z :=
  match s with
  | EmptyString => Raise invalid_literal
  | String c _ =>
      if Ascii.eqb c "_" then Raise invalid_literal
      else
        match scan 0 0 false s with
        | Some (n, count, rest) =>
            if (int_max_str_digits <? count)%Z then Raise exceeds_limit
            else if (count =? 0)%Z then Raise invalid_literal
            else
              match rest with
              | EmptyString => Return n
              | String _ _ => Raise invalid_literal
              end
        | None => Raise invalid_literal
        end
  end.

(** An optional sign and an unsigned literal. *)
Definition signed (s : string) : Exc Z :=
  match s with
  | String c r =>
      if Ascii.eqb c "-" then bind (unsigned r) (fun n => Return (- n)%Z)
      else if Ascii.eqb c "+" then unsigned r
      else unsigned s
  | EmptyString => Raise invalid_literal
  end.

(** [int(s)] for a string argument, base 10: surrounding whitespace is
    skipped, then an optional sign and an unsigned literal must make up
    the whole text; anything else, a literal over the digit limit
    included, is a [ValueError]. *)
Definition int (s : string) : Exc Z :=
  signed (skip_right (skip_left s)).

End Py.

Export Py.

Declare Scope exc_scope.
Delimit Scope exc_scope with exc.
Notation "x <- c ;; k" := (Py.bind c (fun x => k))
  (at level 100, c at next level, right associativity) : exc_scope.
Local Open Scope exc_scope.

(** ** xml.etree.ElementTree *)

Module ElementTree.

(** An element: its tag in [{uri}local] form, never empty, its attribute
    dictionary, its text (absent when the element has no character data
    before its first child) and its children in document order.  The
    tail text is never read by the module and is left out. *)
Inductive Element : Type :=
  mkElement {
    tag : string;
    attrib : gmap string string;
    text : option string;
    children : list Element
  }.

(** [Element.iter(tag)]: the element and its descendants in document
    order, restricted to [tag] unless it is [*]. *)
Fixpoint iter (t : string) (e : Element) : list Element :=
  (if String.eqb t "*" || String.eqb (tag e) t then [e] else [])
    ++ flat_map (iter t) (children e).

End ElementTree.

Export ElementTree.

(** ** xml.etree.ElementPath *)

Module ElementPath.

(** One match of [xpath_tokenizer_re]: the texts of its two groups, an
    operator and a tag name.  Whitespace matches with both groups empty. *)
Definition token : Type := string * string.

Definition squote : ascii := ascii_of_nat 39.
Definition dquote : ascii := ascii_of_nat 34.

Fixpoint mem (c : ascii) (s : string) : bool :=
  match s with
  | EmptyString => false
  | String d r => Ascii.eqb c d || mem c r
  end.

(** [s.partition(c)] when [c] occurs in [s]: the text before and the text
    after its first occurrence. *)
Fixpoint partition (c : ascii) (s : string) : option (string * string) :=
  match s with
  | EmptyString => None
  | String d r =>
      if Ascii.eqb c d then Some (EmptyString, r)
      else match partition c r with
           | Some (a, b) => Some (String d a, b)
           | None => None
           end
  end.

(** The longest prefix whose characters satisfy [p], and the rest. *)
Fixpoint span (p : ascii -> bool) (s : string) : string * string :=
  match s with
  | EmptyString => (EmptyString, EmptyString)
  | String c r =>
      if p c then let '(a, b) := span p r in (String c a, b)
      else (EmptyString, s)
  end.

(** [s.endswith(suffix)] *)
Fixpoint ends_with (suffix s : string) : bool :=
  String.eqb s suffix
  || match s with
     | String _ r => ends_with suffix r
     | EmptyString => false
     end.

(** [s[n:]] *)
Fixpoint drop_chars (n : nat) (s : string) : string :=
  match n, s with
  | S n, String _ r => drop_chars n r
  | _, _ => s
  end.

(** [s[:-1]] *)
Fixpoint but_last (s : string) : string :=
  match s with
  | EmptyString => EmptyString
  | String c EmptyString => EmptyString
  | String c r => String c (but_last r)
  end.

(** The class [[^/\[\]\(\)@!=\s]] of the characters of a name. *)
Definition name_char (c : ascii) : bool :=
  negb (mem c "/[]()@!=" || isspace c).

(** ['[^']*'] and its double-quoted twin, after the opening quote [q]. *)
Definition lex_quoted (q : ascii) (r : string) : option (token * string) :=
  match partition q r with
  | Some (body, r') => Some ((String q (body +:+ String q ""), ""), r')
  | None => None
  end.

(** The alternatives of the first group, in the order of the regular
    expression: a quoted string, [::], [//] or [/], [..], [()], [!=], and
    one of the characters [/.*:[]()@=]. *)
Definition lex_operator (c : ascii) (r : string) : option (token * string) :=
  let one := Some ((String c "", ""), r) in
  let pair (d : ascii) (otherwise : option (token * string)) :=
    match r with
    | String d' r' =>
        if Ascii.eqb d d' then Some ((String c (String d ""), ""), r')
        else otherwise
    | EmptyString => otherwise
    end in
  if Ascii.eqb c squote || Ascii.eqb c dquote then lex_quoted c r
  else if Ascii.eqb c ":" then pair ":"%char one
  else if Ascii.eqb c "/" then pair "/"%char one
  else if Ascii.eqb c "." then pair "."%char one
  else if Ascii.eqb c "(" then pair ")"%char one
  else if Ascii.eqb c "!" then pair "="%char None
  else if mem c "*[])@=" then one
  else None.

(** A run of name characters, the second group without its optional
    namespace part. *)
Definition lex_plain (s : string) : option (token * string) :=
  match span name_char s with
  | (EmptyString, _) => None
  | (run, rest) => Some (("", run), rest)
  end.

(** The second group [(?:\{[^}]+\})?[^/\[\]\(\)@!=\s]+]: a name, with a
    namespace URI in braces before it when one can be matched; the
    expression backtracks to a plain run otherwise. *)
Definition lex_name (s : string) : option (token * string) :=
  match s with
  | String "{" r =>
      match partition "}" r with
      | Some (String u us, after) =>
          match span name_char after with
          | (EmptyString, _) => lex_plain s
          | (run, rest) =>
              Some (("", "{" +:+ String u us +:+ "}" +:+ run), rest)
          end
      | _ => lex_plain s
      end
  | _ => lex_plain s
  end.

(** [\s+] *)
Definition lex_space (s : string) : option (token * string) :=
  match span isspace s with
  | (EmptyString, _) => None
  | (_, rest) => Some (("", ""), rest)
  end.

(** One match of the expression at the head of [s]. *)
Definition lex (s : string) : option (token * string) :=
  match s with
  | EmptyString => None
  | String c r =>
      match lex_operator c r with
      | Some m => Some m
      | None =>
          match lex_name s with
          | Some m => Some m
          | None => lex_space s
          end
      end
  end.

(** [xpath_tokenizer_re.findall(pattern)]: the matches from left to right;
    a character at which nothing matches is skipped.  Every match consumes
    a character, so [n] steps suffice for a pattern of length [n]. *)
Fixpoint findall_steps (n : nat) (s : string) : list token :=
  match n with
  | O => []
  | S n =>
      match s with
      | EmptyString => []
      | String _ r =>
          match lex s with
          | Some (t, rest) => t :: findall_steps n rest
          | None => findall_steps n r
          end
      end
  end.

Definition xpath_tokenizer_re_findall (pattern : string) : list token :=
  findall_steps (String.length pattern) pattern.

(** [namespaces.get('')] when it is a non-empty string. *)
Definition default_namespace (namespaces : gmap string string)
  : option string :=
  match namespaces !! "" with
  | Some (String c r) => Some (String c r)
  | _ => None
  end.

(** The part of the generator [xpath_tokenizer] that cannot fail: a name
    without a prefix is put in the default namespace, if there is one
    and the name is not that of an attribute ([attr], set by a
    preceding [@]).  As it cannot fail, it is applied to all tokens
    ahead of the lookups of prefixes, which stay with [next]. *)
Fixpoint default_pass (default : option string) (attr : bool)
  (tokens : list token) : list token :=
  match tokens with
  | [] => []
  | t :: rest =>
      match t.2 with
      | String c _ =>
          if negb (Ascii.eqb c "{") then
            match partition ":" t.2, default, attr with
            | None, Some ns, false =>
                (t.1, "{" +:+ ns +:+ "}" +:+ t.2)
            | _, _, _ => t
            end :: default_pass default false rest
          else t :: default_pass default (String.eqb t.1 "@") rest
      | EmptyString => t :: default_pass default (String.eqb t.1 "@") rest
      end
  end.

(** The body of the generator [xpath_tokenizer] for one token: a name with
    a prefix is qualified through the prefix map, anything else is passed
    on.  A missing prefix raises [KeyError] inside the generator, which
    turns it into [SyntaxError]; an empty map has no prefix at all.  The
    message quotes the prefix as [repr] does: it is written here as
    [repr] writes a prefix of printable characters without a quote. *)
Definition qualify (namespaces : gmap string string) (t : token) : Exc token :=
  let tag := t.2 in
  match tag with
  | String c _ =>
      if negb (Ascii.eqb c "{") then
        match partition ":" tag with
        | Some (prefix, uri) =>
            match namespaces !! prefix with
            | Some ns => Return (t.1, "{" +:+ ns +:+ "}" +:+ uri)
            | None =>
                Raise (SyntaxError
                         ("prefix '" +:+ prefix +:+ "' not found in prefix map"))
            end
        | None => Return t
        end
      else Return t
  | EmptyString => Return t
  end.

(** [next()] on the generator, whose state is the list of the matches not
    yet qualified. *)
Definition next (namespaces : gmap string string) (it : list token)
  : Exc (token * list token) :=
  match it with
  | [] => Raise StopIteration
  | t :: it' => t' <- qualify namespaces t ;; Return (t', it')
  end.

(** The wildcard tags of [_prepare_tag]. *)
Inductive tag_test : Type :=
| AnyElement
| NoNamespace
| AnyNamespace (name : string)
| InNamespace (ns : string).

(** [_is_wildcard_tag(tag)] *)
Definition is_wildcard_tag (tag : string) : bool :=
  String.prefix "{*}" tag || ends_with "}*" tag.

(** [_prepare_tag(tag)]: [{*}*], [{}*], [{*}name] and [{uri}*]. *)
Definition prepare_tag (tag : string) : Exc tag_test :=
  if String.eqb tag "{*}*" then Return AnyElement
  else if String.eqb tag "{}*" then Return NoNamespace
  else if String.prefix "{*}" tag then Return (AnyNamespace (drop_chars 3 tag))
  else if ends_with "}*" tag then Return (InNamespace (but_last tag))
  else Raise (RuntimeError ("internal parser error, got " +:+ tag)).

(** The test that a wildcard makes on the tag of an element; tags are
    never empty. *)
Definition test_tag (w : tag_test) (el_tag : string) : bool :=
  match w with
  | AnyElement => true
  | NoNamespace =>
      match el_tag with
      | String c _ => negb (Ascii.eqb c "{")
      | EmptyString => true
      end
  | AnyNamespace name =>
      String.eqb el_tag name || ends_with ("}" +:+ name) el_tag
  | InNamespace ns => String.prefix ns el_tag
  end.

(** [tag[2:]] when the tag starts with [{}]: [{}tag] is [tag]. *)
Definition plain_tag (tag : string) : string :=
  if String.prefix "{}" tag then drop_chars 2 tag else tag.

(** A compiled step of a path; [Uncallable] is the [None] that
    [prepare_descendant] returns at the end of the path. *)
Inductive selector : Type :=
| Child (tag : string)
| ChildWild (w : tag_test)
| Star
| Self
| Descendant (tag : string)
| DescendantWild (w : tag_test)
| Uncallable.

Definition prepare_child (namespaces : gmap string string)
  (it : list token) (t : token) : Exc (selector * list token) :=
  let tag := t.2 in
  if is_wildcard_tag tag then
    w <- prepare_tag tag ;; Return (ChildWild w, it)
  else Return (Child (plain_tag tag), it).

Definition prepare_star (namespaces : gmap string string)
  (it : list token) (t : token) : Exc (selector * list token) :=
  Return (Star, it).

Definition prepare_self (namespaces : gmap string string)
  (it : list token) (t : token) : Exc (selector * list token) :=
  Return (Self, it).

Definition prepare_descendant (namespaces : gmap string string)
  (it : list token) (t : token) : Exc (selector * list token) :=
  match next namespaces it with
  | Raise StopIteration => Return (Uncallable, it)
  | Raise e => Raise e
  | Return (t', it') =>
      if String.eqb t'.1 "*" then Return (Descendant "*", it')
      else if String.eqb t'.1 "" then
        let tag := t'.2 in
        if is_wildcard_tag tag then
          w <- prepare_tag tag ;; Return (DescendantWild w, it')
        else Return (Descendant (plain_tag tag), it')
      else Raise (SyntaxError "invalid descendant")
  end.

(** [ops[token[0]](next, token)].  The steps [..] and [[...]] select by
    object identity (the parent map); they are outside the embedding. *)
Definition ops (namespaces : gmap string string)
  (it : list token) (t : token) : Exc (selector * list token) :=
  let op := t.1 in
  if String.eqb op "" then prepare_child namespaces it t
  else if String.eqb op "*" then prepare_star namespaces it t
  else if String.eqb op "." then prepare_self namespaces it t
  else if String.eqb op "//" then prepare_descendant namespaces it t
  else if String.eqb op ".." then Raise (Unmodelled "..")
  else if String.eqb op "[" then Raise (Unmodelled "[")
  else Raise (KeyError op).

(** The end of a round of the loop: [token = next()], and once more when
    that token is [/]; an exhausted generator ends the loop ([None]). *)
Definition advance (namespaces : gmap string string) (it : list token)
  : Exc (option (token * list token)) :=
  except_StopIteration
    (r <- next namespaces it ;;
     let '(t, it') := r in
     if String.eqb t.1 "/" then r' <- next namespaces it' ;; Return (Some r')
     else Return (Some (t, it')))
    (Return None).

(** [ops[token[0]](next, token)] under the handler that turns an exhausted
    generator into a syntax error. *)
Definition prepare (namespaces : gmap string string)
  (it : list token) (t : token) : Exc (selector * list token) :=
  except_StopIteration (ops namespaces it t)
    (Raise (SyntaxError "invalid path")).

(** The [while 1] loop of [iterfind] that builds the selector list, entered
    with the current token [t].  Each round consumes a token, so the loop
    is given more rounds than there are tokens left. *)
Fixpoint compile (rounds : nat) (namespaces : gmap string string)
  (it : list token) (t : token) : Exc (list selector) :=
  match rounds with
  | O => Raise (Unmodelled "rounds")
  | S rounds =>
      r <- prepare namespaces it t ;;
      let '(sel, it) := r in
      a <- advance namespaces it ;;
      match a with
      | None => Return [sel]
      | Some (t, it) =>
          sels <- compile rounds namespaces it t ;; Return (sel :: sels)
      end
  end.

(** A compiled step applied to the elements selected so far. *)
Definition select (sel : selector) (result : list Element) : list Element :=
  match sel with
  | Child tag =>
      flat_map (fun elem => List.filter (fun e => String.eqb (ElementTree.tag e) tag)
                                   (children elem)) result
  | ChildWild w =>
      List.filter (fun e => test_tag w (ElementTree.tag e))
        (flat_map children result)
  | Star => flat_map children result
  | Self => result
  | Descendant tag =>
      flat_map (fun elem => flat_map (iter tag) (children elem)) result
  | DescendantWild w =>
      List.filter (fun e => test_tag w (ElementTree.tag e))
        (flat_map (fun elem => flat_map (iter "*") (children elem)) result)
  | Uncallable => result
  end.

Definition ends_with_slash (path : string) : bool :=
  match String.get (String.length path - 1) path with
  | Some c => Ascii.eqb c "/"
  | None => false
  end.

Definition starts_with_slash (path : string) : bool :=
  match path with
  | String c _ => Ascii.eqb c "/"
  | EmptyString => false
  end.

(** The path that [iterfind] compiles: a final [/] stands for [/*]. *)
Definition effective (path : string) : string :=
  if ends_with_slash path then path +:+ "*" else path.

(** The first [next()] of [iterfind]: a pattern without tokens makes it
    return at once ([None]). *)
Definition first_token (namespaces : gmap string string) (it : list token)
  : Exc (option (token * list token)) :=
  except_StopIteration (r <- next namespaces it ;; Return (Some r))
    (Return None).

(** The branch of [iterfind] taken when the selector is not in the cache:
    "compile selector pattern", on the path with its final [*] added;
    [None] when the path has no token. *)
Definition compile_pattern (path : string) (namespaces : gmap string string)
  : Exc (option (list selector)) :=
  if starts_with_slash path then
    Raise (SyntaxError "cannot use absolute path on element")
  else
    r <- first_token namespaces
           (default_pass (default_namespace namespaces) false
              (xpath_tokenizer_re_findall path)) ;;
    match r with
    | None => Return None
    | Some (t, it) =>
        selector <- compile (S (length it)) namespaces it t ;;
        Return (Some selector)
    end.

Definition compile_path (path : string) (namespaces : gmap string string)
  : Exc (option (list selector)) :=
  compile_pattern (effective path) namespaces.

(** "Execute selector pattern": every step is called on the result of the
    one before; calling the [None] of [prepare_descendant] raises. *)
Definition execute (selector : list selector) (elem : Element)
  : Exc (list Element) :=
  if existsb (fun sel => match sel with Uncallable => true | _ => false end)
       selector
  then Raise (TypeError "'NoneType' object is not callable")
  else Return (fold_left (fun result sel => select sel result) selector [elem]).

(** What [iterfind] does with the outcome of the compilation; [None] is
    its result for a path without tokens. *)
Definition run (selector : option (list selector)) (elem : Element)
  : Exc (option (list Element)) :=
  match selector with
  | Some selector => result <- execute selector elem ;; Return (Some result)
  | None => Return None
  end.

(** [iterfind(elem, path, namespaces)] with an empty selector cache. *)
Definition iterfind (elem : Element) (path : string)
  (namespaces : gmap string string) : Exc (option (list Element)) :=
  selector <- compile_path path namespaces ;;
  run selector elem.

(** [find(elem, path, namespaces)]: [next(iterfind(...), None)]. *)
Definition find (elem : Element) (path : string)
  (namespaces : gmap string string) : Exc (option Element) :=
  r <- iterfind elem path namespaces ;;
  match r with
  | Some result => Return (head result)
  | None => Raise (TypeError "'NoneType' object is not an iterator")
  end.

(** [findall(elem, path, namespaces)]: [list(iterfind(...))]. *)
Definition findall (elem : Element) (path : string)
  (namespaces : gmap string string) : Exc (list Element) :=
  r <- iterfind elem path namespaces ;;
  match r with
  | Some result => Return result
  | None => Raise (TypeError "'NoneType' object is not iterable")
  end.

(** *** The selector cache *)

(** The module-level dictionary [_cache]: its keys hold the path, with
    its final [*] added, and the prefix map. *)
Definition cache : Type := gmap (string * gmap string string) (list selector).

(** [iterfind] as the library runs it, on the cache it finds and with the
    cache it leaves: a selector found is used as it is; otherwise a cache
    of more than 100 entries is cleared, and the selector is stored once
    it is compiled. *)
Definition iterfind_cached (elem : Element) (path : string)
  (namespaces : gmap string string) (c : cache)
  : Exc (option (list Element)) * cache :=
  let path := effective path in
  match c !! (path, namespaces) with
  | Some selector => (run (Some selector) elem, c)
  | None =>
      let c := if (100 <? size c)%nat then ∅ else c in
      match compile_pattern path namespaces with
      | Return (Some selector) =>
          (run (Some selector) elem, <[(path, namespaces) := selector]> c)
      | Return None => (Return None, c)
      | Raise e => (Raise e, c)
      end
  end.

Definition find_cached (elem : Element) (path : string)
  (namespaces : gmap string string) (c : cache)
  : Exc (option Element) * cache :=
  let '(r, c) := iterfind_cached elem path namespaces c in
  (r <- r ;;
   match r with
   | Some result => Return (head result)
   | None => Raise (TypeError "'NoneType' object is not an iterator")
   end, c).

Definition findall_cached (elem : Element) (path : string)
  (namespaces : gmap string string) (c : cache)
  : Exc (list Element) * cache :=
  let '(r, c) := iterfind_cached elem path namespaces c in
  (r <- r ;;
   match r with
   | Some result => Return result
   | None => Raise (TypeError "'NoneType' object is not iterable")
   end, c).

End ElementPath.

Export ElementPath.

(** ** The collaborators of the container parser *)

Module Collaborators.

(** The identity of a Python object; the container hands its own to the
    descriptors it builds. *)
Definition ref : Type := positive.

(** Modelled from the spec: the class [pskc.encryption.Encryption], whose
    module is not part of the sources at hand.  Its constructor takes the
    [EncryptionKey] element or [None] and keeps it; nothing is decrypted
    at construction. *)
Record Encryption : Type := mkEncryption { key_info : option Element }.

(** Modelled from the spec: the class [pskc.mac.MAC], built from a
    reference to the container and the [MACMethod] element or [None]. *)
Record MAC : Type := mkMAC { mac_pskc : ref; mac_method : option Element }.

(** Modelled from the spec: the class [pskc.key.Key], built from a
    reference to the container and one [KeyPackage] element. *)
Record Key : Type := mkKey { key_pskc : ref; key_package : Element }.

End Collaborators.

Export Collaborators.

(** ** pskc/parse.py *)

(** What [ElementTree.parse] meets behind a file name: a file it cannot
    read, text that is not well-formed XML, something else that it
    refuses with an exception of another class ([ValueError] for a file
    name with a null character, [LookupError] for an encoding that it
    does not know), or a document with its root. *)
Inductive source : Type :=
| Unreadable
| Malformed
| Refused (e : exn)
| Document (root : Element).

Record ElementTree_t : Type := mkElementTree { getroot : Element }.

(** [ElementTree.parse(filename)] in a file system [fs]. *)
Definition ElementTree_parse (fs : string -> source) (filename : string)
  : Exc ElementTree_t :=
  match fs filename with
  | Unreadable => Raise OSError
  | Malformed => Raise ET_ParseError
  | Refused e => Raise e
  | Document root => Return (mkElementTree root)
  end.

(** The relevant XML namespaces for PSKC. *)
Definition namespaces : gmap string string :=
  list_to_map
    [ ("pskc", "urn:ietf:params:xml:ns:keyprov:pskc");
      ("ds", "http://www.w3.org/2000/09/xmldsig#");
      ("xenc", "http://www.w3.org/2001/04/xmlenc#");
      ("xenc11", "http://www.w3.org/2009/xmlenc11#");
      ("pkcs5", "http://www.rsasecurity.com/rsalabs/pkcs/schemas/pkcs-5v2-0#") ].

(** Get the text value of an element (or None). *)
Definition g_e_v (tree : Element) (match_ : string) : Exc (option string) :=
  element <- find tree match_ namespaces ;;
  match element with
  | Some element =>
      v <- strip_method (text element) ;; Return (Some v)
  | None => Return None
  end.

(** Return an element value as an int (or None). *)
Definition g_e_i (tree : Element) (match_ : string) : Exc (option Z) :=
  element <- find tree match_ namespaces ;;
  match element with
  | Some element =>
      v <- strip_method (text element) ;;
      n <- Py.int v ;;
      Return (Some n)
  | None => Return None
  end.

Section Dateutil.

(** [dateutil.parser.parse], a third-party function, and its result type;
    the import in the body of [g_e_d] is taken to succeed. *)
Variable datetime : Type.
Variable dateutil_parser_parse : string -> Exc datetime.

(** Return an element value as a datetime (or None). *)
Definition g_e_d (tree : Element) (match_ : string) : Exc (option datetime) :=
  element <- find tree match_ namespaces ;;
  match element with
  | Some element =>
      v <- strip_method (text element) ;;
      d <- dateutil_parser_parse v ;;
      Return (Some d)
  | None => Return None
  end.

End Dateutil.

(** The attributes of a [PSKC] instance once [__init__] has returned. *)
Record PSKC : Type :=
  mkPSKC {
    version : option string;
    id : option string;
    encryption : Encryption;
    mac : MAC;
    keys : list Key
  }.

(** [PSKC.__init__(self, filename)]: [self] is the identity of the object
    under construction; a raise leaves the caller without an instance. *)
Definition PSKC_init (fs : string -> source) (self : ref) (filename : string)
  : Exc PSKC :=
  tree <- ElementTree_parse fs filename ;;
  let container := getroot tree in
  let version : option string := attrib container !! "Version" in
  let id : option string := attrib container !! "Id" in
  e <- find container "pskc:EncryptionKey" namespaces ;;
  let encryption := mkEncryption e in
  m <- find container "pskc:MACMethod" namespaces ;;
  let mac := mkMAC self m in
  packages <- findall container "pskc:KeyPackage" namespaces ;;
  let keys :=
    fold_left (fun keys package => (keys ++ [mkKey self package])%list)
      packages [] in
  Return (mkPSKC version id encryption mac keys).

(** ** The module in a running process *)

(** A computation that may raise and that uses the selector cache of
    [ElementPath], a module-level dictionary that outlives every call:
    it is run on the cache it finds and gives back the cache it
    leaves. *)
Definition Cached (A : Type) : Type := cache -> Exc A * cache.

Definition cached_bind {A B : Type} (c : Cached A) (k : A -> Cached B)
  : Cached B :=
  fun s =>
    let '(r, s') := c s in
    match r with
    | Return a => k a s'
    | Raise e => (Raise e, s')
    end.

(** A computation that leaves the cache alone. *)
Definition uncached {A : Type} (c : Exc A) : Cached A := fun s => (c, s).

Notation "x <~ c ;; k" := (cached_bind c (fun x => k))
  (at level 100, c at next level, right associativity) : exc_scope.

(** [PSKC.__init__(self, filename)] with the cache that its three lookups
    go through. *)
Definition PSKC_init_cached (fs : string -> source) (self : ref)
  (filename : string) : Cached PSKC :=
  tree <~ uncached (ElementTree_parse fs filename) ;;
  let container := getroot tree in
  let version : option string := attrib container !! "Version" in
  let id : option string := attrib container !! "Id" in
  e <~ find_cached container "pskc:EncryptionKey" namespaces ;;
  let encryption := mkEncryption e in
  m <~ find_cached container "pskc:MACMethod" namespaces ;;
  let mac := mkMAC self m in
  packages <~ findall_cached container "pskc:KeyPackage" namespaces ;;
  let keys :=
    fold_left (fun keys package => (keys ++ [mkKey self package])%list)
      packages [] in
  uncached (Return (mkPSKC version id encryption mac keys)).

(** ** Vocabulary of the specification *)

(** A name of the PSKC 1.0 schema as the element tree spells it. *)
Definition pskc_name (local : string) : string :=
  "{urn:ietf:params:xml:ns:keyprov:pskc}" +:+ local.

(** The children of [e] that carry the tag [t], in document order. *)
Definition children_named (t : string) (e : Element) : list Element :=
  List.filter (fun c => String.eqb (tag c) t) (children e).

(** The container that the specification describes for a well-formed
    document with root [root]: the two root attributes, descriptors for
    the first [EncryptionKey] and [MACMethod] children, and one key per
    [KeyPackage] child in document order. *)
Definition container_of (self : ref) (root : Element) : PSKC :=
  mkPSKC (attrib root !! "Version") (attrib root !! "Id")
    (mkEncryption (head (children_named (pskc_name "EncryptionKey") root)))
    (mkMAC self (head (children_named (pskc_name "MACMethod") root)))
    (map (mkKey self) (children_named (pskc_name "KeyPackage") root)).

(** The error taxonomy of the specification, read on the exceptions that
    the code lets escape: a source that cannot be read or is not
    well-formed is a document error, a text that cannot be converted is
    a parse error. *)
Inductive error_kind : Type :=
| DocumentError
| ParseError
| OtherError.

Definition kind_of (e : exn) : error_kind :=
  match e with
  | OSError | ET_ParseError => DocumentError
  | ValueError _ => ParseError
  | _ => OtherError
  end.

(** The five prefixes of the registry. *)
Definition registered_prefixes : list string :=
  ["pskc"; "ds"; "xenc"; "xenc11"; "pkcs5"].

(** The prefix that a token asks the registry for, if any. *)
Definition prefix_of (t : token) : option string :=
  match t.2 with
  | String c _ =>
      if negb (Ascii.eqb c "{") then fst <$> partition ":" t.2 else None
  | EmptyString => None
  end.

Definition unregistered (t : token) : bool :=
  match prefix_of t with
  | Some p => negb (existsb (String.eqb p) registered_prefixes)
  | None => false
  end.

(** Some step of [path] is written with a prefix outside the registry. *)
Definition uses_unregistered_prefix (path : string) : bool :=
  existsb unregistered (xpath_tokenizer_re_findall (effective path)).

(** A token that does not open one of the steps left outside the
    embedding. *)
Definition modelled_op (t : token) : bool :=
  negb (String.eqb t.1 ".." || String.eqb t.1 "[").

(** No step of [path] is one of those left outside the embedding. *)
Definition modelled (path : string) : bool :=
  forallb modelled_op (xpath_tokenizer_re_findall (effective path)).

(** The ways in which compiling a path can fail: the library's
    [SyntaxError] and [KeyError], and, only when a step lies outside the
    embedding ([within] is false), the marker for such a step. *)
Definition compile_error (within : bool) (e : exn) : Prop :=
  match e with
  | SyntaxError _ | KeyError _ => True
  | Unmodelled _ => within = false
  | _ => False
  end.

Definition lookup_error (path : string) (e : exn) : Prop :=
  compile_error (modelled path) e.

(** The selector cache holds nothing but what the path compiler made of
    the key: every selector in it was compiled from the path and the
    prefix map that it is stored under.  That is what the library, the
    only writer of the cache, puts in it, and it is all that the empty
    cache of a new process holds. *)
Definition cache_sound (c : cache) : Prop :=
  forall (path : string) (ns : gmap string string) (selector : list selector),
    c !! (path, ns) = Some selector ->
    compile_pattern path ns = Return (Some selector).

Fixpoint all_chars (p : ascii -> bool) (s : string) : bool :=
  match s with
  | EmptyString => true
  | String c r => p c && all_chars p r
  end.

Definition first_char (s : string) : option ascii :=
  match s with
  | String c _ => Some c
  | EmptyString => None
  end.

Fixpoint last_char (s : string) : option ascii :=
  match s with
  | EmptyString => None
  | String c EmptyString => Some c
  | String _ r => last_char r
  end.

Definition is_space_opt (o : option ascii) : bool :=
  match o with
  | Some c => isspace c
  | None => false
  end.

(** [r] is [t] with the surrounding whitespace trimmed: [t] is [r] between
    two runs of whitespace, and [r] neither starts nor ends with one. *)
Definition trimmed (t r : string) : Prop :=
  exists a b,
    t = a +:+ r +:+ b
    /\ all_chars isspace a = true /\ all_chars isspace b = true
    /\ is_space_opt (first_char r) = false
    /\ is_space_opt (last_char r) = false.

Definition is_digit (c : ascii) : bool :=
  let n := nat_of_ascii c in ((48 <=? n) && (n <=? 57))%nat.

(** The number that a run of decimal digits denotes, most significant
    digit first. *)
Fixpoint decimal_value (s : string) : Z :=
  match s with
  | EmptyString => 0
  | String c r =>
      (Z.of_nat (nat_of_ascii c - 48) * 10 ^ Z.of_nat (String.length r)
       + decimal_value r)%Z
  end.

(** A plain base-10 integer literal and its value: an optional sign and
    one or more decimal digits. *)
Inductive plain_literal : string -> Z -> Prop :=
| plain_unsigned c ds :
    all_chars is_digit (String c ds) = true ->
    plain_literal (String c ds) (decimal_value (String c ds))
| plain_plus c ds :
    all_chars is_digit (String c ds) = true ->
    plain_literal (String "+" (String c ds)) (decimal_value (String c ds))
| plain_minus c ds :
    all_chars is_digit (String c ds) = true ->
    plain_literal (String "-" (String c ds))
      (- decimal_value (String c ds))%Z.

(** Decimal digits in groups: one or more digits, with single underscores
    allowed between two of them. *)
Fixpoint grouped_digits (s : string) : bool :=
  match s with
  | EmptyString => false
  | String c r =>
      is_digit c
      && match r with
         | EmptyString => true
         | String d r' =>
             if Ascii.eqb d "_" then grouped_digits r' else grouped_digits r
         end
  end.

(** The digits of a text, its underscores dropped. *)
Fixpoint ungrouped (s : string) : string :=
  match s with
  | EmptyString => EmptyString
  | String c r =>
      if Ascii.eqb c "_" then ungrouped r else String c (ungrouped r)
  end.

(** The digits of a literal, at most 4300 of them, and their value. *)
Definition digits_value (s : string) (n : Z) : Prop :=
  grouped_digits s = true
  /\ String.length (ungrouped s) <= 4300
  /\ n = decimal_value (ungrouped s).

(** A base-10 integer literal of Python and its value: an optional sign
    and grouped decimal digits, no more than 4300 of them. *)
Inductive integer_literal : string -> Z -> Prop :=
| literal_unsigned s n :
    digits_value s n -> integer_literal s n
| literal_plus s n :
    digits_value s n -> integer_literal (String "+" s) n
| literal_minus s n :
    digits_value s n -> integer_literal (String "-" s) (- n)%Z.

(** A run of [n] characters [c]. *)
Fixpoint run_of (n : nat) (c : ascii) : string :=
  match n with
  | O => EmptyString
  | S n => String c (run_of n c)
  end.

(** ** Sample documents *)

Definition leaf (t : string) (txt : option string) : Element :=
  mkElement t ∅ txt [].

Definition package (serial : string) : Element :=
  mkElement (pskc_name "KeyPackage") ∅ None
    [ mkElement (pskc_name "DeviceInfo") ∅ None
        [ leaf (pskc_name "SerialNo") (Some serial) ] ].

(** A container with two [EncryptionKey] and two [MACMethod] children, a
    foreign element, and three key packages of which two are equal. *)
Definition sample_root : Element :=
  mkElement (pskc_name "KeyContainer")
    (list_to_map [("Version", "1.0"); ("Id", "abc123")]) None
    [ mkElement (pskc_name "EncryptionKey") (list_to_map [("Id", "first")]) None [];
      package "987654321";
      mkElement (pskc_name "MACMethod") (list_to_map [("Algorithm", "hmac-sha1")]) None [];
      mkElement (pskc_name "EncryptionKey") (list_to_map [("Id", "second")]) None [];
      leaf "{urn:example:vendor}KeyPackage" (Some "foreign");
      package "123456789";
      mkElement (pskc_name "MACMethod") (list_to_map [("Algorithm", "hmac-sha256")]) None [];
      package "987654321" ].

(** A container with a version, no identifier, and a single child from a
    foreign namespace. *)
Definition bare_root : Element :=
  mkElement (pskc_name "KeyContainer") (list_to_map [("Version", "1.0")]) None
    [ leaf "{urn:example:vendor}KeyPackage" (Some "foreign") ].

(** A key element with a counter, a malformed counter and an empty
    element. *)
Definition sample_key : Element :=
  mkElement (pskc_name "Key") ∅ None
    [ leaf (pskc_name "Counter") (Some "  42 ");
      leaf (pskc_name "ResponseLength") (Some "abc");
      leaf (pskc_name "Issuer") None;
      leaf (pskc_name "Counter") (Some "7") ].

Definition sample_fs (filename : string) : source :=
  if String.eqb filename "sample.pskcxml" then Document sample_root
  else if String.eqb filename "bare.pskcxml" then Document bare_root
  else if String.eqb filename "unclosed.pskcxml" then Malformed
  else Unreadable.

(** A stand-in for [dateutil.parser.parse] that accepts dates written as
    eight digits. *)
Definition sample_dateutil (s : string) : Exc Z :=
  if all_chars is_digit s && (String.length s =? 8)%nat then Return (decimal_value s)
  else Raise (ValueError "Unknown string format").

(** ** Paths of qualified names *)

(** [prefix:local], the way the callers of the accessors write a name. *)
Definition qname (step : string * string) : string :=
  step.1 +:+ ":" +:+ step.2.

(** [{uri}local], the way the element tree spells it, with the URI that
    the registry gives for the prefix. *)
Definition expanded (step : string * string) : string :=
  "{" +:+ default "" (namespaces !! step.1) +:+ "}" +:+ step.2.

(** The names of a path joined by [/]. *)
Fixpoint join (names : list string) : string :=
  match names with
  | [] => ""
  | n :: rest =>
      match rest with
      | [] => n
      | _ => n +:+ "/" +:+ join rest
      end
  end.

(** The elements reached from [from] by going down one child level per
    tag, in document order. *)
Fixpoint reach (tags : list string) (from : list Element) : list Element :=
  match tags with
  | [] => from
  | t :: ts => reach ts (flat_map (children_named t) from)
  end.

(** A character that can start a plain name: a name character that opens
    no operator, quoted string or namespace part. *)
Definition simple_start (c : ascii) : bool :=
  name_char c
  && negb (Ascii.eqb c squote || Ascii.eqb c dquote || mem c "{.*:").

Definition simple_name (s : string) : bool :=
  match s with
  | String c r => simple_start c && all_chars name_char r
  | EmptyString => false
  end.

(** The tokens of a path of plain names. *)
Fixpoint name_tokens (names : list string) : list token :=
  match names with
  | [] => []
  | n :: rest =>
      ("", n) :: match rest with
                 | [] => []
                 | _ => ("/", "") :: name_tokens rest
                 end
  end.

(** A step of a path of qualified names: a prefix of the registry and a
    local part made of name characters, which do not make the name a
    wildcard. *)
Definition registered_step (step : string * string) : Prop :=
  In step.1 registered_prefixes
  /\ all_chars name_char step.2 = true
  /\ is_wildcard_tag (expanded step) = false.

(** The conversion that a typed accessor applies to the text it found. *)
Definition converted {A : Type} (convert : string -> Exc A)
  (o : option string) : Exc (option A) :=
  match o with
  | Some s => a <- convert s ;; Return (Some a)
  | None => Return None
  end.

(** The text after a name: nothing, or something that no name character
    starts. *)
Definition stops (rest : string) : bool :=
  match rest with
  | String c _ => negb (name_char c)
  | EmptyString => true
  end.

Definition starts_simple (s : string) : bool :=
  match s with
  | String c _ => simple_start c
  | EmptyString => false
  end.

(** A key element whose counter is written with a digit separator, and
    one whose counter has 4301 digits. *)
Definition grouped_key : Element :=
  mkElement (pskc_name "Key") ∅ None
    [ leaf (pskc_name "Counter") (Some "1_000") ].

Definition long_key : Element :=
  mkElement (pskc_name "Key") ∅ None
    [ leaf (pskc_name "Counter") (Some (run_of 4301 "9")) ].

(** A key element whose counter holds whitespace only. *)
Definition blank_key : Element :=
  mkElement (pskc_name "Key") ∅ None
    [ leaf (pskc_name "Counter") (Some "   ") ].

(** The tags of the children that the container parser looks for. *)
Definition container_tags : list string :=
  [pskc_name "EncryptionKey"; pskc_name "MACMethod"; pskc_name "KeyPackage"].

(** The children of the root that carry one of these tags, in document
    order. *)
Definition relevant (root : Element) : list Element :=
  List.filter (fun c => existsb (String.eqb (tag c)) container_tags)
    (children root).

(** The sample container under another root tag, with a root text, one
    more root attribute, and without the foreign child. *)
Definition sample_root_variant : Element :=
  mkElement "{urn:example:vendor}Container"
    (list_to_map [("Version", "1.0"); ("Id", "abc123"); ("Vendor", "acme")])
    (Some "text")
    [ mkElement (pskc_name "EncryptionKey") (list_to_map [("Id", "first")]) None [];
      package "987654321";
      mkElement (pskc_name "MACMethod") (list_to_map [("Algorithm", "hmac-sha1")]) None [];
      mkElement (pskc_name "EncryptionKey") (list_to_map [("Id", "second")]) None [];
      package "123456789";
      mkElement (pskc_name "MACMethod") (list_to_map [("Algorithm", "hmac-sha256")]) None [];
      package "987654321" ].

(** A container whose first key package sits one level too deep, inside
    a foreign wrapper. *)
Definition nested_root : Element :=
  mkElement (pskc_name "KeyContainer") ∅ None
    [ mkElement "{urn:example:vendor}Group" ∅ None [ package "1" ];
      package "2" ].

Definition extra_fs (filename : string) : source :=
  if String.eqb filename "variant.pskcxml" then Document sample_root_variant
  else if String.eqb filename "nested.pskcxml" then Document nested_root
  else Unreadable.

(** * Properties *)

Local Open Scope list_scope.

(** ** The exception monad *)

Lemma bind_Return {A B} (c : Exc A) (k : A -> Exc B) (a : A) :
  c = Return a -> Py.bind c k = k a.
Proof. intros ->. reflexivity. Qed.

Lemma bind_Raise {A B} (c : Exc A) (k : A -> Exc B) (e : exn) :
  c = Raise e -> Py.bind c k = Raise e.
Proof. intros ->. reflexivity. Qed.

(** ** The tokenizer and the compiler never run short *)

Lemma partition_length (c : ascii) (s a b : string) :
  partition c s = Some (a, b) -> String.length b < String.length s.
Proof.
  revert a. induction s as [|d r IH]; intros a; simpl; [discriminate|].
  destruct (Ascii.eqb c d).
  - intros [= <- <-]. lia.
  - destruct (partition c r) as [[a' b']|]; [|discriminate].
    intros [= <- <-]. specialize (IH _ eq_refl). lia.
Qed.

Lemma span_length (p : ascii -> bool) (s a b : string) :
  span p s = (a, b) ->
  String.length a + String.length b = String.length s.
Proof.
  revert a. induction s as [|c r IH]; intros a; simpl.
  - intros [= <- <-]. reflexivity.
  - destruct (p c).
    + destruct (span p r) as [a' b']. intros [= <- <-].
      specialize (IH _ eq_refl). simpl. lia.
    + intros [= <- <-]. reflexivity.
Qed.

Lemma lex_plain_length (s rest : string) (t : token) :
  lex_plain s = Some (t, rest) -> String.length rest < String.length s.
Proof.
  unfold lex_plain. destruct (span name_char s) as [a b] eqn:H.
  apply span_length in H. destruct a as [|c a]; [discriminate|].
  intros [= <- <-]. simpl in H. lia.
Qed.

Lemma lex_length (s rest : string) (t : token) :
  lex s = Some (t, rest) -> String.length rest < String.length s.
Proof.
  destruct s as [|c r]; [discriminate|]. unfold lex.
  destruct (lex_operator c r) as [m|] eqn:Hop.
  - intros [= ->]. revert Hop. unfold lex_operator, lex_quoted.
    assert (Hone : Some (String c "", "", r) = Some (t, rest) ->
                   String.length rest < String.length (String c r))
      by (intros [= <- <-]; simpl; lia).
    assert (Htwo : forall d (o : option (token * string)),
               (o = Some (t, rest) ->
                String.length rest < String.length (String c r)) ->
               match r with
               | String d' r' =>
                   if Ascii.eqb d d'
                   then Some (String c (String d ""), "", r')
                   else o
               | EmptyString => o
               end = Some (t, rest) ->
               String.length rest < String.length (String c r)).
    { intros d o Ho. destruct r as [|d' r']; [exact Ho|].
      destruct (Ascii.eqb d d'); [|exact Ho].
      intros [= <- <-]. simpl. lia. }
    destruct (Ascii.eqb c squote || Ascii.eqb c dquote).
    { destruct (partition c r) as [[body r']|] eqn:Hp; [|discriminate].
      intros [= <- <-]. apply partition_length in Hp. simpl. lia. }
    repeat (match goal with
            | |- context [if ?b then _ else _] => destruct b
            end;
            [first [exact Hone
                   | apply Htwo; first [exact Hone | discriminate]]|]).
    discriminate.
  - destruct (lex_name (String c r)) as [m|] eqn:Hname.
    + intros [= ->]. revert Hname. unfold lex_name.
      destruct (Ascii.eqb_spec c "{") as [->|Hc].
      * destruct (partition "}" r) as [[[|u us] after]|] eqn:Hp;
          try exact (lex_plain_length _ _ _).
        destruct (span name_char after) as [[|x run] b] eqn:Hs;
          [exact (lex_plain_length _ _ _)|].
        intros [= <- <-]. apply partition_length in Hp.
        apply span_length in Hs. simpl in *. lia.
      * intros H. apply (lex_plain_length _ _ t).
        destruct c as [[] [] [] [] [] [] [] []]; try exact H;
          now destruct Hc.
    + unfold lex_space.
      destruct (span isspace (String c r)) as [a b] eqn:H.
      apply span_length in H. destruct a as [|x a]; [discriminate|].
      intros [= <- <-]. simpl in H. simpl. lia.
Qed.

(** Every match consumes a character: any number of steps from the
    length of the pattern on gives the same tokens. *)
Lemma findall_steps_enough (n m : nat) (s : string) :
  String.length s <= n -> String.length s <= m ->
  findall_steps n s = findall_steps m s.
Proof.
  revert m s. induction n as [|n IH]; intros m s Hn Hm.
  - destruct s; [|simpl in Hn; lia]. now destruct m.
  - destruct s as [|c r]; [now destruct m|].
    destruct m as [|m]; [simpl in Hm; lia|].
    cbn [findall_steps]. simpl String.length in Hn, Hm.
    destruct (lex (String c r)) as [[t rest]|] eqn:Hlex.
    + apply lex_length in Hlex. simpl String.length in Hlex.
      f_equal. apply IH; lia.
    + apply IH; lia.
Qed.

Lemma next_length (ns : gmap string string) (it it' : list token) (t : token) :
  next ns it = Return (t, it') -> length it' < length it.
Proof.
  destruct it as [|r l]; simpl; [discriminate|].
  destruct (qualify ns r); simpl; [|discriminate].
  intros [= <- <-]. lia.
Qed.

Lemma advance_length (ns : gmap string string) (it it' : list token)
  (t : token) :
  advance ns it = Return (Some (t, it')) -> length it' < length it.
Proof.
  unfold advance.
  destruct (next ns it) as [[t1 it1]|e] eqn:H1; simpl;
    [|destruct e; discriminate].
  apply next_length in H1.
  destruct (String.eqb t1.1 "/").
  - destruct (next ns it1) as [[t2 it2]|e] eqn:H2; simpl;
      [|destruct e; discriminate].
    apply next_length in H2. intros [= <- <-]. lia.
  - simpl. intros [= <- <-]. lia.
Qed.

(** [_prepare_tag] is only called on wildcard tags, and knows them all. *)
Lemma prepare_tag_wildcard (tg : string) :
  is_wildcard_tag tg = true -> exists w, prepare_tag tg = Return w.
Proof.
  unfold is_wildcard_tag, prepare_tag. intros H.
  destruct (String.eqb tg "{*}*"); [eauto|].
  destruct (String.eqb tg "{}*"); [eauto|].
  destruct (String.prefix "{*}" tg); [eauto|].
  destruct (ends_with "}*" tg); [eauto|discriminate H].
Qed.

Lemma prepare_child_Return (ns : gmap string string) (it : list token)
  (t : token) :
  exists sel, prepare_child ns it t = Return (sel, it).
Proof.
  unfold prepare_child. destruct (is_wildcard_tag t.2) eqn:Hw; [|eauto].
  destruct (prepare_tag_wildcard _ Hw) as (w & ->). simpl. eauto.
Qed.

(** What [prepare_descendant] does after its token is read. *)
Lemma prepare_descendant_next (ns : gmap string string)
  (it it' : list token) (t t' : token) :
  next ns it = Return (t', it') ->
  prepare_descendant ns it t = Raise (SyntaxError "invalid descendant")
  \/ exists sel, prepare_descendant ns it t = Return (sel, it').
Proof.
  intros H. unfold prepare_descendant. rewrite H.
  destruct (String.eqb t'.1 "*"); [eauto|].
  destruct (String.eqb t'.1 ""); [|now left].
  destruct (is_wildcard_tag t'.2) eqn:Hw; [|eauto].
  destruct (prepare_tag_wildcard _ Hw) as (w & ->). simpl. eauto.
Qed.

Lemma prepare_length (ns : gmap string string) (it it' : list token)
  (t : token) (sel : selector) :
  prepare ns it t = Return (sel, it') -> length it' <= length it.
Proof.
  unfold prepare, ops, prepare_star, prepare_self.
  destruct (String.eqb t.1 "").
  { destruct (prepare_child_Return ns it t) as (sel0 & ->).
    simpl. intros [= <- <-]. lia. }
  destruct (String.eqb t.1 "*"); [simpl; intros [= <- <-]; lia|].
  destruct (String.eqb t.1 "."); [simpl; intros [= <- <-]; lia|].
  destruct (String.eqb t.1 "//").
  { destruct (next ns it) as [[t1 it1]|e] eqn:H1.
    - pose proof (next_length _ _ _ _ H1) as Hlen.
      destruct (prepare_descendant_next ns it it1 t t1 H1)
        as [->|(sel0 & ->)]; [discriminate|].
      simpl. intros [= <- <-]. lia.
    - unfold prepare_descendant. rewrite H1.
      destruct e; simpl; try discriminate. intros [= <- <-]. lia. }
  destruct (String.eqb t.1 ".."); [discriminate|].
  destruct (String.eqb t.1 "["); discriminate.
Qed.

(** Every round consumes a token: any number of rounds above the number
    of tokens left compiles the same selector. *)
Lemma compile_rounds_enough (ns : gmap string string) (n m : nat)
  (it : list token) (t : token) :
  length it < n -> length it < m ->
  compile n ns it t = compile m ns it t.
Proof.
  revert m it t. induction n as [|n IH]; intros m it t Hn Hm; [lia|].
  destruct m as [|m]; [lia|]. cbn [compile].
  destruct (prepare ns it t) as [[sel it1]|e] eqn:Hp; [|reflexivity].
  apply prepare_length in Hp. simpl.
  destruct (advance ns it1) as [[[t2 it2]|]|e] eqn:Ha; try reflexivity.
  apply advance_length in Ha. simpl.
  rewrite (IH m it2 t2) by lia. reflexivity.
Qed.

(** ** Lookups by a single qualified name *)

Lemma execute_Child (t : string) (e : Element) :
  execute [Child t] e = Return (children_named t e).
Proof.
  unfold execute, children_named. simpl. now rewrite app_nil_r.
Qed.

Lemma findall_Child (e : Element) (path t : string) :
  compile_path path namespaces = Return (Some [Child t]) ->
  findall e path namespaces = Return (children_named t e).
Proof.
  intros H. unfold findall, iterfind. rewrite H.
  cbn [Py.bind run]. now rewrite execute_Child.
Qed.

Lemma find_head (e : Element) (path : string) (l : list Element) :
  findall e path namespaces = Return l ->
  find e path namespaces = Return (head l).
Proof.
  unfold findall, find.
  destruct (iterfind e path namespaces) as [[r|]|err]; simpl;
    [|discriminate|discriminate].
  now intros [= ->].
Qed.

Lemma find_Child (e : Element) (path t : string) :
  compile_path path namespaces = Return (Some [Child t]) ->
  find e path namespaces = Return (head (children_named t e)).
Proof.
  intros H. apply find_head. now apply findall_Child.
Qed.

Lemma compile_EncryptionKey :
  compile_path "pskc:EncryptionKey" namespaces
  = Return (Some [Child (pskc_name "EncryptionKey")]).
Proof. vm_compute. reflexivity. Qed.

Lemma compile_MACMethod :
  compile_path "pskc:MACMethod" namespaces
  = Return (Some [Child (pskc_name "MACMethod")]).
Proof. vm_compute. reflexivity. Qed.

Lemma compile_KeyPackage :
  compile_path "pskc:KeyPackage" namespaces
  = Return (Some [Child (pskc_name "KeyPackage")]).
Proof. vm_compute. reflexivity. Qed.

Lemma children_named_nil (t : string) (e : Element) :
  Forall (fun c => tag c <> t) (children e) -> children_named t e = [].
Proof.
  unfold children_named. induction 1 as [|c l Hc _ IH]; simpl.
  - reflexivity.
  - destruct (String.eqb_spec (tag c) t); [contradiction | exact IH].
Qed.

(** ** The container parser *)

(** The loop that appends one [Key] per package builds the image of the
    package list. *)
Lemma append_loop_map (self : ref) (packages : list Element) (acc : list Key) :
  fold_left (fun keys package => keys ++ [mkKey self package]) packages acc
  = acc ++ map (mkKey self) packages.
Proof.
  revert acc. induction packages as [|p l IH]; intros acc; simpl.
  - now rewrite app_nil_r.
  - rewrite IH, <- app_assoc. reflexivity.
Qed.

Lemma PSKC_init_Document (fs : string -> source) (self : ref)
  (filename : string) (root : Element) :
  fs filename = Document root ->
  PSKC_init fs self filename = Return (container_of self root).
Proof.
  intros H. unfold PSKC_init, ElementTree_parse. rewrite H. simpl.
  rewrite (find_Child _ _ _ compile_EncryptionKey). simpl.
  rewrite (find_Child _ _ _ compile_MACMethod). simpl.
  rewrite (findall_Child _ _ _ compile_KeyPackage). simpl.
  rewrite append_loop_map. reflexivity.
Qed.

Lemma PSKC_init_no_Document (fs : string -> source) (self : ref)
  (filename : string) :
  fs filename = Unreadable \/ fs filename = Malformed ->
  exists e, PSKC_init fs self filename = Raise e
            /\ kind_of e = DocumentError.
Proof.
  unfold PSKC_init, ElementTree_parse. intros [-> | ->].
  - exists OSError. split; reflexivity.
  - exists ET_ParseError. split; reflexivity.
Qed.

(** C1. A well-formed document whose root has N [KeyPackage] children
    yields a container with exactly N keys, and the i-th key is built from
    the i-th such child in document order: nothing is reordered, dropped
    or merged. *)
Theorem keys_in_document_order (fs : string -> source) (self : ref)
  (filename : string) (root : Element) :
  fs filename = Document root ->
  exists c,
    PSKC_init fs self filename = Return c
    /\ length (keys c) = length (children_named (pskc_name "KeyPackage") root)
    /\ forall (i : nat) (package : Element),
         children_named (pskc_name "KeyPackage") root !! i = Some package ->
         keys c !! i = Some (mkKey self package).
Proof.
  intros H. exists (container_of self root). split; [|split].
  - now apply PSKC_init_Document.
  - simpl. apply length_map.
  - intros i package Hi. simpl.
    rewrite list_lookup_fmap, Hi. reflexivity.
Qed.

Lemma keys_in_document_order_sample :
  sample_fs "sample.pskcxml" = Document sample_root
  /\ exists c,
       PSKC_init sample_fs 1%positive "sample.pskcxml" = Return c
       /\ length (keys c) = 3
       /\ map key_package (keys c)
          = [package "987654321"; package "123456789"; package "987654321"].
Proof.
  split; [reflexivity|].
  destruct (keys_in_document_order sample_fs 1%positive "sample.pskcxml"
              sample_root eq_refl) as (c & Hc & Hlen & Hnth).
  exists c. split; [exact Hc|]. split; [exact Hlen|].
  pose proof (Hnth 0 _ eq_refl) as H0.
  pose proof (Hnth 1 _ eq_refl) as H1.
  pose proof (Hnth 2 _ eq_refl) as H2.
  destruct (keys c) as [|k0 [|k1 [|k2 [|k3 l]]]]; try discriminate Hlen.
  simpl in H0, H1, H2.
  injection H0 as ->. injection H1 as ->. injection H2 as ->.
  reflexivity.
Defined.

(** C3. A well-formed document whose root has no [EncryptionKey],
    [MACMethod] or [KeyPackage] child parses successfully; the container
    holds an encryption descriptor and a MAC descriptor, each built from
    [None], and an empty list of keys. *)
Theorem bare_container (fs : string -> source) (self : ref)
  (filename : string) (root : Element) :
  fs filename = Document root ->
  Forall (fun child =>
            tag child <> pskc_name "EncryptionKey"
            /\ tag child <> pskc_name "MACMethod"
            /\ tag child <> pskc_name "KeyPackage") (children root) ->
  exists c,
    PSKC_init fs self filename = Return c
    /\ encryption c = mkEncryption None
    /\ mac c = mkMAC self None
    /\ keys c = [].
Proof.
  intros H Hno. exists (container_of self root).
  split; [now apply PSKC_init_Document|].
  unfold container_of; simpl.
  rewrite !children_named_nil; [repeat split | | |];
    (eapply Forall_impl; [exact Hno|]); simpl; tauto.
Qed.

Lemma bare_container_sample :
  exists c,
    PSKC_init sample_fs 1%positive "bare.pskcxml" = Return c
    /\ key_info (encryption c) = None
    /\ mac_method (mac c) = None
    /\ keys c = [].
Proof.
  assert (Hno : Forall (fun child =>
                          tag child <> pskc_name "EncryptionKey"
                          /\ tag child <> pskc_name "MACMethod"
                          /\ tag child <> pskc_name "KeyPackage")
                  (children bare_root))
    by (repeat constructor; discriminate).
  destruct (bare_container sample_fs 1%positive "bare.pskcxml" bare_root
              eq_refl Hno) as (c & Hc & He & Hm & Hk).
  exists c. rewrite He, Hm. repeat split; assumption.
Defined.

(** C4. A source that cannot be read, or whose text is not well-formed
    XML, makes the parse raise an error of the document kind; no
    container, whole or partial, is returned. *)
Theorem unreadable_or_malformed (fs : string -> source) (self : ref)
  (filename : string) :
  fs filename = Unreadable \/ fs filename = Malformed ->
  exists e,
    PSKC_init fs self filename = Raise e
    /\ kind_of e = DocumentError
    /\ forall c, PSKC_init fs self filename <> Return c.
Proof.
  intros H.
  destruct (PSKC_init_no_Document fs self filename H) as (e & He & Hk).
  exists e. rewrite He. repeat split; [exact Hk | discriminate].
Qed.

Lemma unreadable_or_malformed_sample :
  sample_fs "unclosed.pskcxml" = Malformed
  /\ exists e,
       PSKC_init sample_fs 1%positive "unclosed.pskcxml" = Raise e
       /\ kind_of e = DocumentError.
Proof.
  split; [reflexivity|].
  destruct (unreadable_or_malformed sample_fs 1%positive "unclosed.pskcxml"
              (or_intror eq_refl)) as (e & He & Hk & _).
  exists e. split; assumption.
Defined.

(** C5. When the root of a well-formed document has two or more
    [EncryptionKey] children, the encryption descriptor is built from the
    first of them in document order and the later ones are ignored; the
    same holds for [MACMethod] and the MAC descriptor. *)
Theorem first_match_wins (fs : string -> source) (self : ref)
  (filename : string) (root : Element) :
  fs filename = Document root ->
  exists c,
    PSKC_init fs self filename = Return c
    /\ (forall e1 e2 rest,
          children_named (pskc_name "EncryptionKey") root = e1 :: e2 :: rest ->
          encryption c = mkEncryption (Some e1))
    /\ (forall m1 m2 rest,
          children_named (pskc_name "MACMethod") root = m1 :: m2 :: rest ->
          mac c = mkMAC self (Some m1)).
Proof.
  intros H. exists (container_of self root).
  split; [now apply PSKC_init_Document|].
  unfold container_of; simpl.
  split; intros x1 x2 rest ->; reflexivity.
Qed.

Lemma first_match_wins_sample :
  sample_fs "sample.pskcxml" = Document sample_root
  /\ exists c,
       PSKC_init sample_fs 1%positive "sample.pskcxml" = Return c
       /\ (attrib <$> key_info (encryption c)) ≫= (.!! "Id") = Some "first"
       /\ (attrib <$> mac_method (mac c)) ≫= (.!! "Algorithm")
          = Some "hmac-sha1".
Proof.
  split; [reflexivity|].
  destruct (first_match_wins sample_fs 1%positive "sample.pskcxml"
              sample_root eq_refl) as (c & Hc & He & Hm).
  exists c. split; [exact Hc|].
  rewrite (He _ _ _ eq_refl), (Hm _ _ _ eq_refl).
  split; reflexivity.
Defined.

(** C6. The [version] and [id] of the container are the values of the
    root's [Version] and [Id] attributes, unchanged; an attribute that
    the root does not carry leaves the field absent and the parse still
    succeeds. *)
Theorem root_attributes (fs : string -> source) (self : ref)
  (filename : string) (root : Element) :
  fs filename = Document root ->
  exists c,
    PSKC_init fs self filename = Return c
    /\ version c = attrib root !! "Version"
    /\ id c = attrib root !! "Id".
Proof.
  intros H. exists (container_of self root).
  split; [now apply PSKC_init_Document|].
  split; reflexivity.
Qed.

Lemma root_attributes_sample :
  (exists c,
     PSKC_init sample_fs 1%positive "sample.pskcxml" = Return c
     /\ version c = Some "1.0" /\ id c = Some "abc123")
  /\ (exists c,
        PSKC_init sample_fs 1%positive "bare.pskcxml" = Return c
        /\ version c = Some "1.0" /\ id c = None).
Proof.
  split.
  - destruct (root_attributes sample_fs 1%positive "sample.pskcxml"
                sample_root eq_refl) as (c & Hc & Hv & Hi).
    exists c. rewrite Hv, Hi. repeat split. exact Hc.
  - destruct (root_attributes sample_fs 1%positive "bare.pskcxml"
                bare_root eq_refl) as (c & Hc & Hv & Hi).
    exists c. rewrite Hv, Hi. repeat split. exact Hc.
Defined.

(** ** The selector cache *)

Lemma cache_sound_empty : cache_sound ∅.
Proof.
  intros path ns selector H. unfold cache in H.
  rewrite lookup_empty in H. discriminate H.
Qed.

Lemma cache_sound_insert (c : cache) (path : string)
  (ns : gmap string string) (selector : list selector) :
  cache_sound c ->
  compile_pattern path ns = Return (Some selector) ->
  cache_sound (<[(path, ns) := selector]> c).
Proof.
  intros Hc Hs path' ns' selector' H. unfold cache in *.
  destruct (decide ((path, ns) = (path', ns'))) as [[= <- <-]|Hne].
  - rewrite lookup_insert_eq in H. now injection H as <-.
  - rewrite lookup_insert_ne in H by exact Hne. now apply Hc.
Qed.

(** A lookup through a sound cache gives what the lookup without a cache
    gives, and leaves a sound cache. *)
Lemma iterfind_cached_sound (elem : Element) (path : string)
  (ns : gmap string string) (c : cache) :
  cache_sound c ->
  (iterfind_cached elem path ns c).1 = iterfind elem path ns
  /\ cache_sound (iterfind_cached elem path ns c).2.
Proof.
  intros Hc. unfold iterfind_cached, iterfind, compile_path.
  destruct (c !! (effective path, ns)) as [selector|] eqn:Hl.
  - rewrite (Hc _ _ _ Hl). split; [reflexivity|exact Hc].
  - assert (Hc' : cache_sound (if (100 <? size c)%nat then ∅ else c))
      by (destruct (100 <? size c)%nat; [apply cache_sound_empty|exact Hc]).
    destruct (compile_pattern (effective path) ns) as [[selector|]|e] eqn:Hp;
      (split; [reflexivity|]); trivial.
    now apply cache_sound_insert.
Qed.

Lemma find_cached_sound (elem : Element) (path : string)
  (ns : gmap string string) (c : cache) :
  cache_sound c ->
  (find_cached elem path ns c).1 = find elem path ns
  /\ cache_sound (find_cached elem path ns c).2.
Proof.
  intros Hc. unfold find_cached, find.
  destruct (iterfind_cached_sound elem path ns c Hc) as [Hr Hs].
  destruct (iterfind_cached elem path ns c) as [r c'].
  simpl in *. now rewrite Hr.
Qed.

Lemma findall_cached_sound (elem : Element) (path : string)
  (ns : gmap string string) (c : cache) :
  cache_sound c ->
  (findall_cached elem path ns c).1 = findall elem path ns
  /\ cache_sound (findall_cached elem path ns c).2.
Proof.
  intros Hc. unfold findall_cached, findall.
  destruct (iterfind_cached_sound elem path ns c Hc) as [Hr Hs].
  destruct (iterfind_cached elem path ns c) as [r c'].
  simpl in *. now rewrite Hr.
Qed.

(** The container parser run on a sound cache does what it does without
    a cache, and leaves a sound cache. *)
Lemma PSKC_init_cached_sound (fs : string -> source) (self : ref)
  (filename : string) (c : cache) :
  cache_sound c ->
  (PSKC_init_cached fs self filename c).1 = PSKC_init fs self filename
  /\ cache_sound (PSKC_init_cached fs self filename c).2.
Proof.
  intros Hc. unfold PSKC_init_cached, PSKC_init, cached_bind, uncached.
  destruct (ElementTree_parse fs filename) as [tree|e]; [|now split].
  cbn [Py.bind].
  destruct (find_cached_sound (getroot tree) "pskc:EncryptionKey"
              namespaces c Hc) as [H1 Hc1].
  destruct (find_cached (getroot tree) "pskc:EncryptionKey" namespaces c)
    as [r1 c1].
  simpl in H1, Hc1. rewrite <- H1. destruct r1 as [e1|err]; [|now split].
  cbn [Py.bind].
  destruct (find_cached_sound (getroot tree) "pskc:MACMethod"
              namespaces c1 Hc1) as [H2 Hc2].
  destruct (find_cached (getroot tree) "pskc:MACMethod" namespaces c1)
    as [r2 c2].
  simpl in H2, Hc2. rewrite <- H2. destruct r2 as [m|err]; [|now split].
  cbn [Py.bind].
  destruct (findall_cached_sound (getroot tree) "pskc:KeyPackage"
              namespaces c2 Hc2) as [H3 Hc3].
  destruct (findall_cached (getroot tree) "pskc:KeyPackage" namespaces c2)
    as [r3 c3].
  simpl in H3, Hc3. rewrite <- H3. destruct r3 as [packages|err]; now split.
Qed.

Lemma map_key_package (self : ref) (packages : list Element) :
  map key_package (map (mkKey self) packages) = packages.
Proof.
  induction packages as [|x l IH]; simpl; [reflexivity | now rewrite IH].
Qed.

(** C9. Two successive parses of the same unchanged source, the second on
    the selector cache that the first has left, either both raise the
    same exception, when the source holds no document, or both succeed.
    The two containers then carry the [Version] and the [Id] attribute
    of the root of the document, and the elements behind the keys of
    either are the [KeyPackage] children of that root, each as often and
    in the order in which it stands in the document; so the two key
    lists have the same length and the same element at every position.
    The cache that the first parse starts on holds nothing but compiled
    selectors, as the empty cache of a new process does. *)
Theorem parse_deterministic (fs : string -> source) (self1 self2 : ref)
  (filename : string) (cache0 : cache) :
  cache_sound cache0 ->
  let first := PSKC_init_cached fs self1 filename cache0 in
  let second := PSKC_init_cached fs self2 filename first.2 in
  match fs filename with
  | Document root =>
      exists c1 c2,
        first.1 = Return c1
        /\ second.1 = Return c2
        /\ version c1 = attrib root !! "Version"
        /\ version c2 = version c1
        /\ id c1 = attrib root !! "Id"
        /\ id c2 = id c1
        /\ map key_package (keys c1)
           = children_named (pskc_name "KeyPackage") root
        /\ map key_package (keys c2) = map key_package (keys c1)
        /\ length (keys c2) = length (keys c1)
  | Unreadable | Malformed | Refused _ =>
      exists e, first.1 = Raise e /\ second.1 = Raise e
  end.
Proof.
  intros H0 first second.
  destruct (PSKC_init_cached_sound fs self1 filename cache0 H0) as [H1 Hc1].
  fold first in H1, Hc1.
  destruct (PSKC_init_cached_sound fs self2 filename first.2 Hc1) as [H2 _].
  fold second in H2. rewrite H1, H2.
  destruct (fs filename) as [| |e|root] eqn:H.
  - exists OSError.
    unfold PSKC_init, ElementTree_parse. rewrite H. split; reflexivity.
  - exists ET_ParseError.
    unfold PSKC_init, ElementTree_parse. rewrite H. split; reflexivity.
  - exists e.
    unfold PSKC_init, ElementTree_parse. rewrite H. split; reflexivity.
  - exists (container_of self1 root), (container_of self2 root).
    rewrite !(PSKC_init_Document _ _ _ _ H). simpl.
    rewrite !map_key_package, !length_map. repeat split.
Qed.

Lemma parse_deterministic_sample :
  cache_sound ∅
  /\ exists c1 c2,
       (PSKC_init_cached sample_fs 1%positive "sample.pskcxml" ∅).1
       = Return c1
       /\ (PSKC_init_cached sample_fs 2%positive "sample.pskcxml"
             (PSKC_init_cached sample_fs 1%positive "sample.pskcxml" ∅).2).1
          = Return c2
       /\ version c1 = Some "1.0"
       /\ id c2 = Some "abc123"
       /\ map key_package (keys c2)
          = [package "987654321"; package "123456789"; package "987654321"].
Proof.
  split; [apply cache_sound_empty|].
  destruct (parse_deterministic sample_fs 1%positive 2%positive
              "sample.pskcxml" ∅ cache_sound_empty)
    as (c1 & c2 & H1 & H2 & Hv1 & Hv2 & Hi1 & Hi2 & Hk1 & Hk2 & _).
  exists c1, c2. split; [exact H1|]. split; [exact H2|].
  split; [exact Hv1|]. split; [now rewrite Hi2, Hi1|].
  now rewrite Hk2, Hk1.
Defined.

(** ** [str.strip] trims *)

Lemma append_String (c : ascii) (a b : string) :
  String c a +:+ b = String c (a +:+ b).
Proof. reflexivity. Qed.

Lemma append_empty (b : string) : "" +:+ b = b.
Proof. reflexivity. Qed.

Lemma lstrip_spec (s : string) :
  exists a,
    s = a +:+ lstrip s
    /\ all_chars isspace a = true
    /\ is_space_opt (first_char (lstrip s)) = false.
Proof.
  induction s as [|c r (a & Hr & Ha & Hf)]; simpl.
  - exists "". repeat split.
  - destruct (isspace c) eqn:Hc.
    + exists (String c a). simpl.
      rewrite append_String, Hc, Ha, <- Hr. repeat split. exact Hf.
    + exists "". simpl. rewrite Hc. repeat split.
Qed.

Lemma rstrip_spec (s : string) :
  exists b,
    s = rstrip s +:+ b
    /\ all_chars isspace b = true
    /\ is_space_opt (last_char (rstrip s)) = false.
Proof.
  induction s as [|c r (b & Hr & Hb & Hl)]; simpl.
  - exists "". repeat split.
  - destruct (rstrip r) as [|d r'] eqn:Hs.
    + rewrite append_empty in Hr. subst b. destruct (isspace c) eqn:Hc.
      * exists (String c r). simpl. rewrite Hc, Hb. repeat split.
      * exists r. simpl. rewrite Hc. repeat split. exact Hb.
    + exists b. rewrite append_String, <- Hr. repeat split.
      * exact Hb.
      * exact Hl.
Qed.

Lemma rstrip_first (s : string) :
  is_space_opt (first_char s) = false ->
  is_space_opt (first_char (rstrip s)) = false.
Proof.
  destruct s as [|c r]; simpl; [reflexivity|]. intros Hc.
  destruct (rstrip r); [rewrite Hc|]; simpl; trivial.
Qed.

Lemma lstrip_fixed (s : string) :
  is_space_opt (first_char s) = false -> lstrip s = s.
Proof.
  destruct s as [|c r]; simpl; [reflexivity|]. now intros ->.
Qed.

Lemma rstrip_fixed (s : string) :
  is_space_opt (last_char s) = false -> rstrip s = s.
Proof.
  induction s as [|c r IH]; simpl; [reflexivity|].
  destruct r as [|d r'].
  - simpl. now intros ->.
  - intros H. rewrite (IH H). reflexivity.
Qed.

(** [strip] returns its argument with the surrounding whitespace
    trimmed. *)
Lemma strip_trimmed (t : string) : trimmed t (strip t).
Proof.
  unfold trimmed, strip.
  destruct (lstrip_spec t) as (a & Ht & Ha & Hf).
  destruct (rstrip_spec (lstrip t)) as (b & Hl & Hb & Hlast).
  exists a, b. repeat split; trivial.
  - rewrite <- Hl. exact Ht.
  - now apply rstrip_first.
Qed.

Lemma strip_strip (t : string) : strip (strip t) = strip t.
Proof.
  destruct (strip_trimmed t) as (a & b & _ & _ & _ & Hf & Hl).
  unfold strip at 1. rewrite (lstrip_fixed _ Hf). now apply rstrip_fixed.
Qed.

(** ** [int] reads base-10 literals *)

Lemma digit_is_digit (c : ascii) :
  digit c = if is_digit c then Some (Z.of_nat (nat_of_ascii c - 48)) else None.
Proof. reflexivity. Qed.

Lemma is_digit_not_underscore (c : ascii) :
  is_digit c = true -> Ascii.eqb c "_" = false.
Proof. destruct (Ascii.eqb_spec c "_") as [->|]; [discriminate|reflexivity]. Qed.

(** On grouped digits the scan reads every character, whatever came
    before. *)
Lemma scan_grouped (k : nat) (s : string) (acc count : Z) (b : bool) :
  String.length s <= k ->
  grouped_digits s = true ->
  scan acc count b s
  = Some ((acc * 10 ^ Z.of_nat (String.length (ungrouped s))
           + decimal_value (ungrouped s))%Z,
          (count + Z.of_nat (String.length (ungrouped s)))%Z, "").
Proof.
  revert s acc count b.
  induction k as [|k IH]; intros s acc count b Hk Hs;
    (destruct s as [|c r]; [discriminate|]); simpl in Hk; [lia|].
  cbn [grouped_digits] in Hs. apply andb_prop in Hs as [Hc Hr].
  cbn [scan ungrouped]. rewrite (is_digit_not_underscore c Hc).
  rewrite digit_is_digit, Hc.
  assert (Hstep : forall r0,
             String.length r0 <= k ->
             grouped_digits r0 = true ->
             ungrouped r = ungrouped r0 ->
             scan (10 * acc + Z.of_nat (nat_of_ascii c - 48)) (count + 1) false r
             = scan (10 * acc + Z.of_nat (nat_of_ascii c - 48)) (count + 1)
                 false r0 \/
             scan (10 * acc + Z.of_nat (nat_of_ascii c - 48)) (count + 1) false r
             = scan (10 * acc + Z.of_nat (nat_of_ascii c - 48)) (count + 1)
                 true r0 ->
             scan (10 * acc + Z.of_nat (nat_of_ascii c - 48)) (count + 1) false r
             = Some ((acc * 10 ^ Z.of_nat (String.length (String c (ungrouped r)))
                      + decimal_value (String c (ungrouped r)))%Z,
                     (count + Z.of_nat (String.length (String c (ungrouped r))))%Z,
                     "")).
  { intros r0 Hl Hg Hu Hscan.
    assert (Hboth : forall b0,
               scan (10 * acc + Z.of_nat (nat_of_ascii c - 48)) (count + 1) b0 r0
               = Some ((acc * 10 ^ Z.of_nat (String.length (String c (ungrouped r)))
                        + decimal_value (String c (ungrouped r)))%Z,
                       (count + Z.of_nat (String.length (String c (ungrouped r))))%Z,
                       "")).
    { intros b0. rewrite (IH r0 _ _ b0 Hl Hg), Hu. do 3 f_equal.
      - cbn [decimal_value String.length].
        rewrite Nat2Z.inj_succ, Z.pow_succ_r by lia. ring.
      - cbn [String.length]. lia. }
    destruct Hscan as [-> | ->]; apply Hboth. }
  destruct r as [|d r'].
  - cbn [scan ungrouped decimal_value String.length]. do 3 f_equal; lia.
  - destruct (Ascii.eqb d "_") eqn:Hd.
    + apply (Hstep r'); [simpl in Hk; lia|exact Hr| |].
      * cbn [ungrouped]. now rewrite Hd.
      * right. cbn [scan]. now rewrite Hd.
    + apply (Hstep (String d r')); [lia|exact Hr|reflexivity|now left].
Qed.

(** A scan that reads a whole text, and does not start on an underscore,
    has read grouped digits. *)
Lemma scan_whole (k : nat) (s : string) (acc count : Z) (b : bool) (v n : Z) :
  String.length s <= k ->
  scan acc count b s = Some (v, n, "") ->
  match s with
  | EmptyString => True
  | String c _ => Ascii.eqb c "_" = false -> grouped_digits s = true
  end.
Proof.
  revert s acc count b.
  induction k as [|k IH]; intros s acc count b Hk;
    (destruct s as [|c r]; [easy|]); simpl in Hk; [lia|].
  cbn [scan]. intros Hscan Hc. rewrite Hc in Hscan.
  rewrite digit_is_digit in Hscan. cbn [grouped_digits].
  destruct (is_digit c); [|now destruct b]. cbn [andb].
  destruct r as [|d r']; [reflexivity|].
  destruct (Ascii.eqb d "_") eqn:Hd.
  - cbn [scan] in Hscan. rewrite Hd in Hscan.
    destruct r' as [|d' r'']; [discriminate Hscan|].
    simpl in Hk.
    apply (IH (String d' r'') _ _ _ ltac:(simpl; lia) Hscan).
    cbn [scan] in Hscan.
    destruct (Ascii.eqb d' "_"); [discriminate Hscan|reflexivity].
  - apply (IH (String d r') _ _ _ ltac:(lia) Hscan). exact Hd.
Qed.

Lemma unsigned_error (s : string) :
  (exists n, unsigned s = Return n)
  \/ (exists msg, unsigned s = Raise (ValueError msg)).
Proof.
  unfold unsigned. destruct s as [|c r]; [right; eexists; reflexivity|].
  destruct (Ascii.eqb c "_"); [right; eexists; reflexivity|].
  destruct (scan 0 0 false (String c r)) as [[[n count] rest]|];
    [|right; eexists; reflexivity].
  destruct (int_max_str_digits <? count)%Z; [right; eexists; reflexivity|].
  destruct (count =? 0)%Z; [right; eexists; reflexivity|].
  destruct rest; [left|right]; eexists; reflexivity.
Qed.

(** [unsigned] accepts exactly the grouped digits within the limit, with
    their value. *)
Lemma unsigned_spec (s : string) (n : Z) :
  unsigned s = Return n <-> digits_value s n.
Proof.
  unfold digits_value, unsigned. split.
  - destruct s as [|c r]; [discriminate|].
    destruct (Ascii.eqb c "_") eqn:Hc; [discriminate|].
    destruct (scan 0 0 false (String c r)) as [[[v count] rest]|] eqn:Hscan;
      [|discriminate].
    destruct (int_max_str_digits <? count)%Z eqn:Hmax; [discriminate|].
    destruct (count =? 0)%Z; [discriminate|].
    destruct rest; [|discriminate]. intros [= ->].
    pose proof (scan_whole _ _ _ _ _ _ _ (le_n _) Hscan Hc) as Hg.
    rewrite (scan_grouped _ _ _ _ _ (le_n _) Hg) in Hscan.
    injection Hscan as <- <-. apply Z.ltb_ge in Hmax.
    unfold int_max_str_digits in Hmax. cbn [ungrouped].
    split; [exact Hg|]. split; [lia|]. lia.
  - intros (Hg & Hlen & ->).
    destruct s as [|c r]; [discriminate|].
    assert (Hc : is_digit c = true).
    { cbn [grouped_digits] in Hg. now apply andb_prop in Hg as [Hc _]. }
    rewrite (is_digit_not_underscore c Hc).
    rewrite (scan_grouped _ _ _ _ _ (le_n _) Hg).
    assert (Hpos : 0 < String.length (ungrouped (String c r))).
    { cbn [ungrouped]. rewrite (is_digit_not_underscore c Hc). simpl. lia. }
    destruct (int_max_str_digits <? _)%Z eqn:Hmax.
    { apply Z.ltb_lt in Hmax. unfold int_max_str_digits in Hmax. lia. }
    destruct (_ =? 0)%Z eqn:Hz; [apply Z.eqb_eq in Hz; lia|].
    f_equal; lia.
Qed.

Lemma signed_error (s : string) :
  (exists n, signed s = Return n)
  \/ (exists msg, signed s = Raise (ValueError msg)).
Proof.
  unfold signed. destruct s as [|c r]; [right; eexists; reflexivity|].
  destruct (Ascii.eqb c "-").
  - destruct (unsigned_error r) as [(n & ->)|(msg & ->)];
      [left|right]; eexists; reflexivity.
  - destruct (Ascii.eqb c "+"); apply unsigned_error.
Qed.

Lemma digits_value_first (c : ascii) (r : string) (n : Z) :
  digits_value (String c r) n -> is_digit c = true.
Proof.
  intros (Hg & _). cbn [grouped_digits] in Hg.
  now apply andb_prop in Hg as [Hc _].
Qed.

(** The literals are exactly the strings that [signed] accepts, with the
    same value. *)
Lemma signed_literal (s : string) (n : Z) :
  signed s = Return n <-> integer_literal s n.
Proof.
  split.
  - destruct s as [|c r]; [discriminate|]. unfold signed.
    destruct (Ascii.eqb_spec c "-") as [->|Hm];
      [|destruct (Ascii.eqb_spec c "+") as [->|Hp]].
    + destruct (unsigned r) as [m|e] eqn:Hu; [|discriminate].
      intros [= <-]. apply literal_minus. now apply unsigned_spec.
    + intros Hu. apply literal_plus. now apply unsigned_spec.
    + intros Hu. apply literal_unsigned. now apply unsigned_spec.
  - intros [s' m H|s' m H|s' m H]; unfold signed.
    + destruct s' as [|c r]; [now destruct H|].
      pose proof (digits_value_first _ _ _ H) as Hc.
      destruct (Ascii.eqb_spec c "-") as [->|_]; [discriminate Hc|].
      destruct (Ascii.eqb_spec c "+") as [->|_]; [discriminate Hc|].
      now apply unsigned_spec.
    + change (Ascii.eqb "+" "-") with false.
      change (Ascii.eqb "+" "+") with true.
      cbv iota. now apply unsigned_spec.
    + change (Ascii.eqb "-" "-") with true.
      cbv iota. apply unsigned_spec in H. now rewrite H.
Qed.

Lemma int_space_isspace (c : ascii) : int_space c = true -> isspace c = true.
Proof.
  destruct c as [[] [] [] [] [] [] [] []]; vm_compute; intros H;
    try reflexivity; discriminate H.
Qed.

Lemma skip_left_fixed (s : string) :
  is_space_opt (first_char s) = false -> skip_left s = s.
Proof.
  destruct s as [|c r]; [reflexivity|]. simpl. intros H.
  destruct (int_space c) eqn:Hc; [|reflexivity].
  apply int_space_isspace in Hc. congruence.
Qed.

Lemma skip_right_fixed (s : string) :
  is_space_opt (last_char s) = false -> skip_right s = s.
Proof.
  induction s as [|c r IH]; [reflexivity|].
  destruct r as [|d r'].
  - simpl. intros H. destruct (int_space c) eqn:Hc; [|reflexivity].
    apply int_space_isspace in Hc. congruence.
  - intros H. change (last_char (String c (String d r')))
      with (last_char (String d r')) in H.
    cbn [skip_right]. cbn [skip_right] in IH. now rewrite (IH H).
Qed.

(** A text that [strip] has trimmed is left as it is by [int]. *)
Lemma int_strip (t : string) : Py.int (strip t) = signed (strip t).
Proof.
  destruct (strip_trimmed t) as (a & b & _ & _ & _ & Hf & Hl).
  unfold Py.int. rewrite (skip_left_fixed _ Hf). now rewrite (skip_right_fixed _ Hl).
Qed.

Lemma int_literal (t : string) (n : Z) :
  integer_literal (strip t) n -> Py.int (strip t) = Return n.
Proof.
  intros H. rewrite int_strip. now apply signed_literal.
Qed.

Lemma int_not_literal (t : string) :
  (forall n, ~ integer_literal (strip t) n) ->
  exists msg, Py.int (strip t) = Raise (ValueError msg).
Proof.
  intros H. rewrite int_strip.
  destruct (signed_error (strip t)) as [(n & Hn)|Hmsg]; [|exact Hmsg].
  apply signed_literal in Hn. destruct (H n Hn).
Qed.

(** ** The typed accessors *)

Section Accessors.

Variable datetime : Type.
Variable dateutil_parser_parse : string -> Exc datetime.

(** The three accessors share the lookup: whatever [find] raises, they
    raise. *)
Lemma accessors_raise (tree : Element) (path : string) (e : exn) :
  find tree path namespaces = Raise e ->
  g_e_v tree path = Raise e
  /\ g_e_i tree path = Raise e
  /\ g_e_d datetime dateutil_parser_parse tree path = Raise e.
Proof.
  intros H. unfold g_e_v, g_e_i, g_e_d. rewrite H. repeat split.
Qed.

Lemma accessors_absent (tree : Element) (path : string) :
  find tree path namespaces = Return None ->
  g_e_v tree path = Return None
  /\ g_e_i tree path = Return None
  /\ g_e_d datetime dateutil_parser_parse tree path = Return None.
Proof.
  intros H. unfold g_e_v, g_e_i, g_e_d. rewrite H. repeat split.
Qed.

Lemma accessors_no_text (tree : Element) (path : string) (el : Element) :
  find tree path namespaces = Return (Some el) ->
  text el = None ->
  exists msg,
    g_e_v tree path = Raise (AttributeError msg)
    /\ g_e_i tree path = Raise (AttributeError msg)
    /\ g_e_d datetime dateutil_parser_parse tree path
       = Raise (AttributeError msg).
Proof.
  intros H Ht. unfold g_e_v, g_e_i, g_e_d. rewrite H. simpl.
  rewrite Ht. eexists. repeat split.
Qed.

Lemma g_e_d_text (tree : Element) (path : string) (el : Element)
  (t : string) :
  find tree path namespaces = Return (Some el) ->
  text el = Some t ->
  g_e_d datetime dateutil_parser_parse tree path
  = (d <- dateutil_parser_parse (strip t) ;; Return (Some d)).
Proof.
  intros H Ht. unfold g_e_d. rewrite H. simpl. now rewrite Ht.
Qed.

End Accessors.

Lemma g_e_v_text (tree : Element) (path : string) (el : Element)
  (t : string) :
  find tree path namespaces = Return (Some el) ->
  text el = Some t ->
  g_e_v tree path = Return (Some (strip t)).
Proof.
  intros H Ht. unfold g_e_v. rewrite H. simpl. now rewrite Ht.
Qed.

Lemma g_e_i_text (tree : Element) (path : string) (el : Element)
  (t : string) :
  find tree path namespaces = Return (Some el) ->
  text el = Some t ->
  g_e_i tree path = (n <- Py.int (strip t) ;; Return (Some n)).
Proof.
  intros H Ht. unfold g_e_i. rewrite H. simpl. now rewrite Ht.
Qed.

(** The string accessor on an element that is found and has text: the
    text is returned with the surrounding whitespace trimmed. *)
Lemma g_e_v_trimmed (tree : Element) (path : string) (el : Element)
  (rest : list Element) (t : string) :
  findall tree path namespaces = Return (el :: rest) ->
  text el = Some t ->
  exists r, g_e_v tree path = Return (Some r) /\ trimmed t r.
Proof.
  intros H Ht. apply find_head in H.
  exists (strip t). split; [now apply (g_e_v_text _ _ el) | apply strip_trimmed].
Qed.

Lemma g_e_v_absent (tree : Element) (path : string) :
  findall tree path namespaces = Return [] ->
  g_e_v tree path = Return None.
Proof.
  intros H. apply find_head in H. unfold g_e_v. now rewrite H.
Qed.

(** C2, read with a plain literal (an optional sign and decimal digits),
    fails in both directions.  The text [1_000] is no plain literal, yet
    the integer accessor returns 1000 for it and raises nothing; a run of
    4301 digits is a plain literal, yet the accessor raises [ValueError]
    for it and returns no integer. *)
Lemma integer_accessor_plain_literal :
  (find grouped_key "pskc:Counter" namespaces
   = Return (Some (leaf (pskc_name "Counter") (Some "1_000")))
   /\ (forall n, ~ plain_literal (strip "1_000") n)
   /\ g_e_i grouped_key "pskc:Counter" = Return (Some 1000%Z))
  /\ (find long_key "pskc:Counter" namespaces
      = Return (Some (leaf (pskc_name "Counter") (Some (run_of 4301 "9"))))
      /\ (exists n, plain_literal (strip (run_of 4301 "9")) n)
      /\ g_e_i long_key "pskc:Counter" = Raise exceeds_limit
      /\ kind_of exceeds_limit = ParseError).
Proof.
  split; [split; [|split]|split; [|split; [|split]]].
  - reflexivity.
  - intros n H. replace (strip "1_000") with "1_000" in H by reflexivity.
    inversion H as [c ds Hd|c ds Hd|c ds Hd]; discriminate Hd.
  - reflexivity.
  - vm_compute. reflexivity.
  - exists (decimal_value (String "9" (run_of 4300 "9"))).
    replace (strip (run_of 4301 "9")) with (String "9" (run_of 4300 "9"))
      by (vm_compute; reflexivity).
    apply plain_unsigned. vm_compute. reflexivity.
  - vm_compute. reflexivity.
  - reflexivity.
Qed.

(** C2, amended.  The integer accessor, on the elements that match the
    path in document order, when the first of them has text: if that
    text, trimmed, is an integer literal of Python (an optional sign and
    decimal digits, single underscores allowed between digits, no more
    than 4300 digits), its value is returned (42 for the text 42, 1000
    for 1_000); if the trimmed text is no such literal (as in abc),
    [ValueError] is raised, an error of the parse kind, and nothing is
    returned.  When no element matches, the result is [None] and nothing
    is raised. *)
Theorem integer_accessor (tree : Element) (path : string) :
  (forall el rest t n,
      findall tree path namespaces = Return (el :: rest) ->
      text el = Some t ->
      integer_literal (strip t) n ->
      g_e_i tree path = Return (Some n))
  /\ (forall el rest t,
        findall tree path namespaces = Return (el :: rest) ->
        text el = Some t ->
        (forall n, ~ integer_literal (strip t) n) ->
        exists msg,
          g_e_i tree path = Raise (ValueError msg)
          /\ kind_of (ValueError msg) = ParseError)
  /\ (findall tree path namespaces = Return [] ->
      g_e_i tree path = Return None).
Proof.
  split; [|split].
  - intros el rest t n H Ht Hn. apply find_head in H.
    now rewrite (g_e_i_text _ _ el t H Ht), (int_literal t n Hn).
  - intros el rest t H Ht Hn. apply find_head in H.
    destruct (int_not_literal t Hn) as (msg & Hmsg).
    exists msg. rewrite (g_e_i_text _ _ el t H Ht), Hmsg. split; reflexivity.
  - intros H. apply find_head in H. unfold g_e_i. now rewrite H.
Qed.

Lemma integer_accessor_sample :
  g_e_i sample_key "pskc:Counter" = Return (Some 42%Z)
  /\ g_e_i grouped_key "pskc:Counter" = Return (Some 1000%Z)
  /\ (exists msg,
        g_e_i sample_key "pskc:ResponseLength" = Raise (ValueError msg)
        /\ kind_of (ValueError msg) = ParseError)
  /\ g_e_i sample_key "pskc:Algorithm" = Return None.
Proof.
  split; [|split; [|split]].
  - apply (proj1 (integer_accessor sample_key "pskc:Counter")
             _ _ _ 42%Z eq_refl eq_refl).
    apply signed_literal. reflexivity.
  - apply (proj1 (integer_accessor grouped_key "pskc:Counter")
             _ _ _ 1000%Z eq_refl eq_refl).
    apply signed_literal. reflexivity.
  - apply (proj1 (proj2 (integer_accessor sample_key "pskc:ResponseLength"))
             _ _ _ eq_refl eq_refl).
    intros n Hn. apply signed_literal in Hn. discriminate Hn.
  - apply (proj2 (proj2 (integer_accessor sample_key "pskc:Algorithm"))).
    reflexivity.
Defined.

(** C10. When the first element that matches the path has no text at all
    (an empty element, whose text is [None]), each of the three accessors
    raises [AttributeError] from calling [strip] on [None]: the outcome is
    neither [None] nor an error of the parse kind. *)
Theorem empty_element_raises (datetime : Type)
  (dateutil_parser_parse : string -> Exc datetime)
  (tree : Element) (path : string) (el : Element) (rest : list Element) :
  findall tree path namespaces = Return (el :: rest) ->
  text el = None ->
  exists msg,
    g_e_v tree path = Raise (AttributeError msg)
    /\ g_e_i tree path = Raise (AttributeError msg)
    /\ g_e_d datetime dateutil_parser_parse tree path
       = Raise (AttributeError msg)
    /\ kind_of (AttributeError msg) = OtherError.
Proof.
  intros H Ht. apply find_head in H. simpl in H.
  destruct (accessors_no_text datetime dateutil_parser_parse _ _ _ H Ht)
    as (msg & Hv & Hi & Hd).
  exists msg. repeat split; assumption.
Qed.

Lemma empty_element_raises_sample :
  findall sample_key "pskc:Issuer" namespaces
  = Return [leaf (pskc_name "Issuer") None]
  /\ exists msg,
       g_e_v sample_key "pskc:Issuer" = Raise (AttributeError msg)
       /\ g_e_i sample_key "pskc:Issuer" = Raise (AttributeError msg)
       /\ g_e_d Z sample_dateutil sample_key "pskc:Issuer"
          = Raise (AttributeError msg).
Proof.
  split; [reflexivity|].
  destruct (empty_element_raises Z sample_dateutil sample_key "pskc:Issuer"
              _ _ eq_refl eq_refl) as (msg & Hv & Hi & Hd & _).
  exists msg. repeat split; assumption.
Defined.

(** C7. The string accessor at an element that is present and empty:
    [<pskc:Issuer/>] matches the path, and the accessor raises instead of
    returning a text. *)
Theorem string_accessor_empty_element :
  findall sample_key "pskc:Issuer" namespaces
  = Return [leaf (pskc_name "Issuer") None]
  /\ g_e_v sample_key "pskc:Issuer"
     = Raise (AttributeError "'NoneType' object has no attribute 'strip'").
Proof. split; reflexivity. Qed.

(** ** Prefixes outside the registry *)

Lemma namespaces_registered (p : string) :
  namespaces !! p = None
  <-> existsb (String.eqb p) registered_prefixes = false.
Proof.
  unfold registered_prefixes. simpl. rewrite !orb_false_iff, !String.eqb_neq.
  split.
  - intros H. repeat split; try tauto; intros ->; vm_compute in H; discriminate H.
  - intros (H1 & H2 & H3 & H4 & H5 & _). unfold namespaces. simpl.
    rewrite !lookup_insert_ne by congruence. apply lookup_empty.
Qed.

Lemma qualify_op (ns : gmap string string) (t t' : token) :
  qualify ns t = Return t' -> t'.1 = t.1.
Proof.
  unfold qualify. destruct t as [op tg]; simpl.
  destruct tg as [|c r]; [now intros [= <-]|].
  destruct (negb (Ascii.eqb c "{")); [|now intros [= <-]].
  destruct (partition ":" (String c r)) as [[pfx uri]|]; [|now intros [= <-]].
  destruct (ns !! pfx); [now intros [= <-] | discriminate].
Qed.

Lemma qualify_error (ns : gmap string string) (t : token) (e : exn) :
  qualify ns t = Raise e -> exists msg, e = SyntaxError msg.
Proof.
  unfold qualify. destruct t as [op tg]; simpl.
  destruct tg as [|c r]; [discriminate|].
  destruct (negb (Ascii.eqb c "{")); [|discriminate].
  destruct (partition ":" (String c r)) as [[pfx uri]|]; [|discriminate].
  destruct (ns !! pfx); [discriminate|]. intros [= <-]. eauto.
Qed.

Lemma qualify_unregistered (t : token) :
  unregistered t = true ->
  exists msg, qualify namespaces t = Raise (SyntaxError msg).
Proof.
  unfold unregistered, prefix_of, qualify. destruct t as [op tg]; simpl.
  destruct tg as [|c r]; [discriminate|].
  destruct (negb (Ascii.eqb c "{")); [|discriminate].
  destruct (partition ":" (String c r)) as [[pfx uri]|]; [|discriminate].
  simpl. rewrite negb_true_iff. intros H.
  apply namespaces_registered in H. rewrite H. eauto.
Qed.

Lemma next_error (ns : gmap string string) (it : list token) (e : exn) :
  next ns it = Raise e -> e = StopIteration \/ exists msg, e = SyntaxError msg.
Proof.
  destruct it as [|r l]; simpl.
  - intros [= <-]. now left.
  - destruct (qualify ns r) as [t|e'] eqn:Hq; simpl; [discriminate|].
    intros [= <-]. right. now apply qualify_error in Hq.
Qed.

Lemma advance_error (ns : gmap string string) (it : list token) (e : exn) :
  advance ns it = Raise e -> exists msg, e = SyntaxError msg.
Proof.
  unfold advance.
  destruct (next ns it) as [[t1 it1]|e1] eqn:H1; simpl.
  - destruct (String.eqb t1.1 "/"); [|discriminate].
    destruct (next ns it1) as [[t2 it2]|e2] eqn:H2; simpl; [discriminate|].
    destruct (next_error _ _ _ H2) as [->|(msg & ->)]; simpl;
      [discriminate | intros [= <-]; eauto].
  - destruct (next_error _ _ _ H1) as [->|(msg & ->)]; simpl;
      [discriminate | intros [= <-]; eauto].
Qed.

Lemma prepare_unmodelled (ns : gmap string string) (it : list token)
  (t : token) (feature : string) :
  prepare ns it t = Raise (Unmodelled feature) ->
  feature = ".." \/ feature = "[".
Proof.
  unfold prepare, ops.
  destruct (String.eqb t.1 "").
  { destruct (prepare_child_Return ns it t) as (sel & ->). discriminate. }
  destruct (String.eqb t.1 "*"); [discriminate|].
  destruct (String.eqb t.1 "."); [discriminate|].
  destruct (String.eqb t.1 "//").
  - destruct (next ns it) as [[t1 it1]|e1] eqn:H1.
    + destruct (prepare_descendant_next ns it it1 t t1 H1)
        as [->|(sel & ->)]; discriminate.
    + unfold prepare_descendant. rewrite H1.
      destruct (next_error _ _ _ H1) as [->|(msg & ->)]; discriminate.
  - destruct (String.eqb t.1 ".."); [intros [= <-]; now left|].
    destruct (String.eqb t.1 "["); [intros [= <-]; now right|].
    discriminate.
Qed.

(** With more rounds than tokens the loop never stops for lack of
    rounds. *)
Lemma compile_rounds_suffice (ns : gmap string string) (rounds : nat)
  (it : list token) (t : token) :
  length it < rounds ->
  compile rounds ns it t <> Raise (Unmodelled "rounds").
Proof.
  revert it t. induction rounds as [|rounds IH]; intros it t Hlen; [lia|].
  cbn [compile].
  destruct (prepare ns it t) as [[sel it1]|e] eqn:Hp; simpl.
  - apply prepare_length in Hp.
    destruct (advance ns it1) as [[[t2 it2]|]|e] eqn:Ha; simpl.
    + apply advance_length in Ha.
      specialize (IH it2 t2 ltac:(lia)).
      destruct (compile rounds ns it2 t2); simpl; congruence.
    + discriminate.
    + apply advance_error in Ha as (msg & ->). discriminate.
  - intros [= ->]. apply prepare_unmodelled in Hp as [Hp|Hp]; discriminate Hp.
Qed.

Lemma modelled_op_eq (t t' : token) : t'.1 = t.1 -> modelled_op t' = modelled_op t.
Proof. unfold modelled_op. now intros ->. Qed.

Lemma next_unregistered (it : list token) :
  existsb unregistered it = true ->
  (exists msg, next namespaces it = Raise (SyntaxError msg))
  \/ (exists r t it',
        it = r :: it'
        /\ next namespaces it = Return (t, it')
        /\ t.1 = r.1
        /\ existsb unregistered it' = true).
Proof.
  destruct it as [|r it']; simpl; [discriminate|]. intros H.
  destruct (qualify namespaces r) as [t|e] eqn:Hq; simpl.
  - right. exists r, t, it'. repeat split.
    + now apply qualify_op in Hq.
    + destruct (unregistered r) eqn:Hr; [|exact H].
      destruct (qualify_unregistered r Hr) as (msg & Hmsg). congruence.
  - left. destruct (qualify_error _ _ _ Hq) as (msg & ->). eauto.
Qed.

Lemma advance_unregistered (it : list token) :
  existsb unregistered it = true ->
  (exists msg, advance namespaces it = Raise (SyntaxError msg))
  \/ (exists t it',
        advance namespaces it = Return (Some (t, it'))
        /\ length it' < length it
        /\ existsb unregistered it' = true
        /\ (forallb modelled_op it = true ->
            modelled_op t && forallb modelled_op it' = true)).
Proof.
  intros H. unfold advance.
  destruct (next_unregistered it H)
    as [(msg & ->)|(r & t & it' & -> & -> & Hop & H')]; simpl.
  - left. eauto.
  - destruct (String.eqb t.1 "/").
    + destruct (next_unregistered it' H')
        as [(msg & ->)|(r2 & t2 & it2 & -> & -> & Hop2 & H2)]; simpl.
      * left. eauto.
      * right. exists t2, it2. repeat split; [lia | exact H2 |].
        rewrite (modelled_op_eq _ _ Hop2), !andb_true_iff. tauto.
    + right. exists t, it'. repeat split; [lia | exact H' |].
      rewrite (modelled_op_eq _ _ Hop). tauto.
Qed.

Lemma prepare_unregistered (it : list token) (t : token) :
  existsb unregistered it = true ->
  (exists e, prepare namespaces it t = Raise e
             /\ compile_error (modelled_op t) e)
  \/ (exists sel it',
        prepare namespaces it t = Return (sel, it')
        /\ length it' <= length it
        /\ existsb unregistered it' = true
        /\ (forallb modelled_op it = true -> forallb modelled_op it' = true)).
Proof.
  intros H. unfold prepare, ops, modelled_op.
  destruct (String.eqb t.1 "") eqn:E1.
  { destruct (prepare_child_Return namespaces it t) as (sel & ->).
    right; eexists _, it; repeat split; auto. }
  destruct (String.eqb t.1 "*") eqn:E2;
    [right; eexists _, it; repeat split; auto|].
  destruct (String.eqb t.1 ".") eqn:E3;
    [right; eexists _, it; repeat split; auto|].
  destruct (String.eqb t.1 "//") eqn:E4.
  - destruct (next_unregistered it H)
      as [(msg & Hn)|(r & t' & it' & -> & Hn & Hop & H')].
    + unfold prepare_descendant. rewrite Hn.
      left. eexists. split; [reflexivity | exact I].
    + destruct (prepare_descendant_next _ _ _ t _ Hn) as [->|(sel & ->)].
      * left. eexists. split; [reflexivity | exact I].
      * right; eexists _, it'; repeat split;
          [simpl; lia | exact H' | simpl; rewrite andb_true_iff; tauto].
  - destruct (String.eqb t.1 "..") eqn:E5;
      [left; eexists; split; [reflexivity | reflexivity]|].
    destruct (String.eqb t.1 "[") eqn:E6;
      [left; eexists; split; [reflexivity | reflexivity]|].
    left. eexists. split; [reflexivity | exact I].
Qed.

Lemma compile_error_weaken (b b' : bool) (e : exn) :
  (b' = true -> b = true) -> compile_error b e -> compile_error b' e.
Proof.
  intros Hb. destruct e; simpl; trivial. intros ->.
  destruct b'; [now rewrite Hb | reflexivity].
Qed.

(** A round of the loop either raises or moves on with fewer tokens, so a
    token with a prefix outside the registry is always reached. *)
Lemma compile_unregistered (rounds : nat) (it : list token) (t : token) :
  length it < rounds ->
  existsb unregistered it = true ->
  exists e,
    compile rounds namespaces it t = Raise e
    /\ compile_error (modelled_op t && forallb modelled_op it) e.
Proof.
  revert it t. induction rounds as [|rounds IH]; intros it t Hlen H; [lia|].
  simpl.
  destruct (prepare_unregistered it t H)
    as [(e & -> & He)|(sel & it1 & -> & Hlen1 & H1 & Hm1)]; simpl.
  - exists e. split; [reflexivity|].
    revert He. apply compile_error_weaken. rewrite andb_true_iff. tauto.
  - destruct (advance_unregistered it1 H1)
      as [(msg & ->)|(t2 & it2 & -> & Hlen2 & H2 & Hm2)]; simpl.
    + eexists. split; [reflexivity | exact I].
    + destruct (IH it2 t2) as (e & -> & He); [lia | exact H2 |]. simpl.
      exists e. split; [reflexivity|].
      revert He. apply compile_error_weaken.
      rewrite andb_true_iff. intros [_ Hit]. auto.
Qed.

(** The registry has no default namespace: the names without a prefix
    are left as they are. *)
Lemma default_pass_None (attr : bool) (tokens : list token) :
  default_pass None attr tokens = tokens.
Proof.
  revert attr. induction tokens as [|t rest IH]; intros attr; [reflexivity|].
  cbn [default_pass]. destruct t.2 as [|c r]; [now rewrite IH|].
  destruct (negb (Ascii.eqb c "{")); rewrite IH; [|reflexivity].
  now destruct (partition ":" (String c r)) as [[]|].
Qed.

Lemma compile_pattern_tokens (path : string) :
  compile_pattern path namespaces
  = if starts_with_slash path then
      Raise (SyntaxError "cannot use absolute path on element")
    else
      (r <- first_token namespaces (xpath_tokenizer_re_findall path) ;;
       match r with
       | None => Return None
       | Some (t, it) =>
           selector <- compile (S (length it)) namespaces it t ;;
           Return (Some selector)
       end).
Proof.
  unfold compile_pattern.
  change (default_namespace namespaces) with (@None string).
  now rewrite default_pass_None.
Qed.

Lemma compile_path_unregistered (path : string) :
  uses_unregistered_prefix path = true ->
  exists e, compile_path path namespaces = Raise e /\ lookup_error path e.
Proof.
  unfold uses_unregistered_prefix, lookup_error, modelled, compile_path.
  intros H. rewrite compile_pattern_tokens.
  destruct (starts_with_slash (effective path)).
  - eexists. split; [reflexivity | exact I].
  - unfold first_token.
    destruct (next_unregistered _ H)
      as [(msg & ->)|(r & t & it & -> & Hn & Hop & H')].
    + eexists. split; [reflexivity | exact I].
    + rewrite Hn. cbn [Py.bind except_StopIteration].
      destruct (compile_unregistered (S (length it)) it t) as (e & -> & He);
        [lia | exact H' |].
      exists e. split; [reflexivity|].
      simpl forallb. now rewrite <- (modelled_op_eq _ _ Hop).
Qed.

(** C8. A lookup whose path names a prefix outside the five of the
    registry never succeeds: [find], [findall] and the three accessors all
    raise, whatever the tree holds, instead of matching an element by an
    unqualified or differently qualified name.  The error is the
    library's [SyntaxError] (or [KeyError] when an earlier token is no
    step at all); only a path with a step outside the embedding can end
    in the marker of that step instead. *)
Theorem unregistered_prefix_fails (datetime : Type)
  (dateutil_parser_parse : string -> Exc datetime)
  (tree : Element) (path : string) :
  uses_unregistered_prefix path = true ->
  exists e,
    find tree path namespaces = Raise e
    /\ findall tree path namespaces = Raise e
    /\ g_e_v tree path = Raise e
    /\ g_e_i tree path = Raise e
    /\ g_e_d datetime dateutil_parser_parse tree path = Raise e
    /\ lookup_error path e.
Proof.
  intros H. destruct (compile_path_unregistered path H) as (e & Hc & He).
  assert (Hit : iterfind tree path namespaces = Raise e)
    by (unfold iterfind; now rewrite Hc).
  assert (Hall : findall tree path namespaces = Raise e)
    by (unfold findall; now rewrite Hit).
  assert (Hfind : find tree path namespaces = Raise e)
    by (unfold find; now rewrite Hit).
  destruct (accessors_raise datetime dateutil_parser_parse _ _ _ Hfind)
    as (Hv & Hi & Hd).
  exists e. repeat split; assumption.
Qed.

Lemma unregistered_prefix_fails_sample :
  uses_unregistered_prefix "vendor:KeyPackage" = true
  /\ modelled "vendor:KeyPackage" = true
  /\ exists e,
       find bare_root "vendor:KeyPackage" namespaces = Raise e
       /\ g_e_v bare_root "vendor:KeyPackage" = Raise e
       /\ lookup_error "vendor:KeyPackage" e.
Proof.
  split; [reflexivity|]. split; [reflexivity|].
  destruct (unregistered_prefix_fails Z sample_dateutil bare_root
              "vendor:KeyPackage" eq_refl) as (e & Hf & _ & Hv & _ & _ & He).
  exists e. repeat split; assumption.
Defined.

(** ** Paths of qualified names *)

Lemma length_append (a b : string) :
  String.length (a +:+ b) = String.length a + String.length b.
Proof.
  induction a as [|c a IH]; [reflexivity|].
  rewrite append_String. simpl. now rewrite IH.
Qed.

Lemma all_chars_append (p : ascii -> bool) (a b : string) :
  all_chars p (a +:+ b) = all_chars p a && all_chars p b.
Proof.
  induction a as [|c a IH]; [reflexivity|].
  rewrite append_String. simpl. now rewrite IH, andb_assoc.
Qed.

Lemma span_run (a rest : string) :
  all_chars name_char a = true ->
  stops rest = true ->
  span name_char (a +:+ rest) = (a, rest).
Proof.
  intros Ha Hr. induction a as [|c a IH].
  - rewrite append_empty. destruct rest as [|d r]; [reflexivity|].
    simpl in *. now destruct (name_char d).
  - rewrite append_String. simpl in *.
    apply andb_true_iff in Ha as [-> Ha]. now rewrite (IH Ha).
Qed.

Lemma simple_start_operator (c : ascii) (r : string) :
  simple_start c = true -> lex_operator c r = None.
Proof.
  unfold simple_start, lex_operator, name_char.
  destruct c as [[] [] [] [] [] [] [] []]; try discriminate; reflexivity.
Qed.

Lemma lex_String (c : ascii) (r : string) :
  lex (String c r)
  = match lex_operator c r with
    | Some m => Some m
    | None =>
        match lex_name (String c r) with
        | Some m => Some m
        | None => lex_space (String c r)
        end
    end.
Proof. reflexivity. Qed.

(** A plain name at the head of a pattern is one token. *)
Lemma lex_simple (s rest : string) :
  simple_name s = true ->
  stops rest = true ->
  lex (s +:+ rest) = Some (("", s), rest).
Proof.
  destruct s as [|c r]; [discriminate|]. intros H Hr.
  apply andb_true_iff in H as [Hc Hall].
  rewrite append_String, lex_String, (simple_start_operator _ _ Hc).
  assert (Hplain : lex_plain (String c (r +:+ rest))
                   = Some (("", String c r), rest)).
  { unfold lex_plain. rewrite <- append_String, span_run; trivial.
    simpl. rewrite Hall.
    unfold simple_start in Hc. apply andb_true_iff in Hc as [-> _].
    reflexivity. }
  assert (Hname : lex_name (String c (r +:+ rest))
                  = lex_plain (String c (r +:+ rest))).
  { unfold lex_name.
    destruct c as [[] [] [] [] [] [] [] []]; try reflexivity.
    discriminate Hc. }
  now rewrite Hname, Hplain.
Qed.

Lemma lex_slash (s : string) :
  starts_simple s = true ->
  lex (String "/" s) = Some (("/", ""), s).
Proof.
  destruct s as [|c r]; [discriminate|]. simpl. intros Hc.
  unfold lex, lex_operator.
  destruct c as [[] [] [] [] [] [] [] []]; try reflexivity;
    discriminate Hc.
Qed.

Lemma append_empty_r (s : string) : s +:+ "" = s.
Proof.
  induction s as [|c s IH]; [reflexivity|].
  now rewrite append_String, IH.
Qed.

Lemma simple_name_length (s : string) :
  simple_name s = true -> 0 < String.length s.
Proof. destruct s; [discriminate|]. simpl. lia. Qed.

Lemma starts_simple_join (n : string) (rest : list string) :
  simple_name n = true -> starts_simple (join (n :: rest)) = true.
Proof.
  destruct n as [|c r]; [discriminate|]. intros H.
  apply andb_true_iff in H as [Hc _].
  simpl. destruct rest; [exact Hc|]. now rewrite append_String.
Qed.

Lemma findall_steps_empty (k : nat) : findall_steps k "" = [].
Proof. now destruct k. Qed.

Lemma findall_steps_lex (k : nat) (s rest : string) (t : token) :
  lex s = Some (t, rest) ->
  findall_steps (S k) s = t :: findall_steps k rest.
Proof.
  destruct s as [|c r]; [discriminate|]. intros H.
  cbn [findall_steps]. now rewrite H.
Qed.

(** The tokenizer splits a path of plain names at its slashes. *)
Lemma findall_steps_join (names : list string) :
  Forall (fun n => simple_name n = true) names ->
  forall k, String.length (join names) <= k ->
            findall_steps k (join names) = name_tokens names.
Proof.
  induction 1 as [|n rest Hn Hrest IH]; intros k Hk.
  - apply findall_steps_empty.
  - pose proof (simple_name_length _ Hn) as Hlen.
    destruct rest as [|m rest'].
    + simpl in *. destruct k as [|k]; [lia|].
      rewrite (findall_steps_lex _ n "" ("", n)).
      * now rewrite findall_steps_empty.
      * rewrite <- (append_empty_r n) at 1. now apply lex_simple.
    + change (join (n :: m :: rest'))
        with (n +:+ String "/" (join (m :: rest'))) in *.
      change (name_tokens (n :: m :: rest'))
        with (("", n) :: ("/", "") :: name_tokens (m :: rest')).
      pose proof (starts_simple_join m rest' (Forall_inv Hrest)) as Hm.
      remember (join (m :: rest')) as J eqn:HJ. clear HJ.
      rewrite length_append in Hk. simpl String.length in Hk.
      destruct k as [|[|k]]; [lia | lia |].
      rewrite (findall_steps_lex _ _ _ _ (lex_simple n (String "/" J) Hn eq_refl)).
      rewrite (findall_steps_lex _ _ _ _ (lex_slash J Hm)).
      rewrite IH by lia. reflexivity.
Qed.

Lemma simple_name_chars (s : string) :
  simple_name s = true -> all_chars name_char s = true.
Proof.
  destruct s as [|c r]; [discriminate|]. simpl. unfold simple_start.
  rewrite !andb_true_iff. tauto.
Qed.

Lemma simple_name_append (a b : string) :
  simple_name a = true -> all_chars name_char b = true ->
  simple_name (a +:+ b) = true.
Proof.
  destruct a as [|c r]; [discriminate|]. intros H Hb.
  rewrite append_String. unfold simple_name in *.
  apply andb_true_iff in H as [Hc Hr].
  now rewrite Hc, all_chars_append, Hr, Hb.
Qed.

Lemma registered_cases (p : string) (P : string -> Prop) :
  In p registered_prefixes ->
  P "pskc" -> P "ds" -> P "xenc" -> P "xenc11" -> P "pkcs5" -> P p.
Proof.
  unfold registered_prefixes. simpl.
  intros [<-|[<-|[<-|[<-|[<-|[]]]]]]; trivial.
Qed.

Lemma registered_step_simple (step : string * string) :
  registered_step step -> simple_name (qname step) = true.
Proof.
  destruct step as [p l]. unfold registered_step, qname. simpl.
  intros (Hp & Hl & _). apply simple_name_append.
  - apply (registered_cases p (fun p => simple_name p = true) Hp);
      reflexivity.
  - change (":" +:+ l) with (String ":" l). simpl. exact Hl.
Qed.

(** The registry turns [prefix:local] into [{uri}local]. *)
Lemma qualify_qname (step : string * string) :
  registered_step step ->
  qualify namespaces ("", qname step) = Return ("", expanded step).
Proof.
  destruct step as [p l]. unfold registered_step. simpl. intros [Hp _].
  apply (registered_cases p
           (fun p => qualify namespaces ("", qname (p, l))
                     = Return ("", expanded (p, l))) Hp);
    vm_compute; reflexivity.
Qed.

(** A name of the registry is no wildcard, and is looked for as it is. *)
Lemma prepare_name (ns : gmap string string) (it : list token)
  (step : string * string) :
  registered_step step ->
  prepare ns it ("", expanded step) = Return (Child (expanded step), it).
Proof.
  intros (Hp & _ & Hw). unfold prepare, ops, prepare_child.
  cbn [fst snd String.eqb]. rewrite Hw. cbn [except_StopIteration].
  do 3 f_equal. destruct step as [p l]. simpl in Hp.
  apply (registered_cases p
           (fun p => plain_tag (expanded (p, l)) = expanded (p, l)) Hp);
    reflexivity.
Qed.

Lemma advance_nil (ns : gmap string string) : advance ns [] = Return None.
Proof. reflexivity. Qed.

Lemma advance_slash (ns : gmap string string) (n t : token)
  (it : list token) :
  qualify ns n = Return t ->
  advance ns (("/", "") :: n :: it) = Return (Some (t, it)).
Proof.
  intros H. unfold advance, next. simpl. rewrite H. reflexivity.
Qed.

Lemma compile_S (rounds : nat) (ns : gmap string string) (it : list token)
  (t : token) :
  compile (S rounds) ns it t
  = (r <- prepare ns it t ;;
     let '(sel, it) := r in
     a <- advance ns it ;;
     match a with
     | None => Return [sel]
     | Some (t, it) =>
         sels <- compile rounds ns it t ;; Return (sel :: sels)
     end).
Proof. reflexivity. Qed.

(** The tokens that follow the first name of a path of names. *)
Lemma name_tokens_cons (n : string) (rest : list string) :
  name_tokens (n :: rest)
  = ("", n) :: match rest with
               | [] => []
               | _ => ("/", "") :: name_tokens rest
               end.
Proof. reflexivity. Qed.

Lemma compile_steps (steps : list (string * string)) :
  Forall registered_step steps ->
  forall (s0 : string * string) (rounds : nat),
    registered_step s0 ->
    length steps + length steps < rounds ->
    compile rounds namespaces
      (tail (name_tokens (map qname (s0 :: steps)))) ("", expanded s0)
    = Return (map Child (map expanded (s0 :: steps))).
Proof.
  induction 1 as [|s1 rest Hs1 Hrest IH]; intros s0 rounds Hs0 Hr;
    (destruct rounds as [|rounds]; [simpl in Hr; lia|]);
    rewrite compile_S, (prepare_name _ _ _ Hs0); simpl Py.bind.
  - reflexivity.
  - rewrite (advance_slash _ _ _ _ (qualify_qname s1 Hs1)). simpl Py.bind.
    specialize (IH s1 rounds Hs1 ltac:(simpl in Hr; lia)).
    simpl tail in IH. rewrite IH. reflexivity.
Qed.

Lemma get_last_char (s : string) :
  String.get (String.length s - 1) s = last_char s.
Proof.
  induction s as [|c r IH]; [reflexivity|].
  destruct r as [|d r']; [reflexivity|].
  replace (String.length (String c (String d r')) - 1)
    with (S (String.length (String d r') - 1)) by (simpl; lia).
  exact IH.
Qed.

Lemma last_char_append (a : string) (c : ascii) (b : string) :
  last_char (a +:+ String c b) = last_char (String c b).
Proof.
  induction a as [|d a IH]; [reflexivity|].
  rewrite append_String.
  change (last_char (String d (a +:+ String c b)))
    with (match a +:+ String c b with
          | EmptyString => Some d
          | _ => last_char (a +:+ String c b)
          end).
  destruct (a +:+ String c b) eqn:E; [|exact IH].
  destruct a; discriminate E.
Qed.

Lemma last_char_all (p : ascii -> bool) (s : string) (c : ascii) :
  all_chars p s = true -> last_char s = Some c -> p c = true.
Proof.
  induction s as [|d r IH]; [discriminate|].
  simpl all_chars. intros H. apply andb_true_iff in H as [Hd Hr].
  destruct r as [|e r']; [now intros [= <-]|].
  intros Hl. now apply IH.
Qed.

Lemma all_chars_join (names : list string) :
  Forall (fun n => simple_name n = true) names ->
  all_chars (fun c => name_char c || Ascii.eqb c "/") (join names) = true.
Proof.
  assert (Hw : forall s, all_chars name_char s = true ->
                         all_chars (fun c => name_char c || Ascii.eqb c "/") s
                         = true).
  { induction s as [|c r IH]; [reflexivity|]. simpl.
    intros H. apply andb_true_iff in H as [-> Hr]. now rewrite IH. }
  induction 1 as [|n rest Hn Hrest IH]; [reflexivity|].
  apply simple_name_chars in Hn. simpl.
  destruct rest; [now apply Hw|].
  rewrite all_chars_append, (Hw _ Hn).
  change ("/" +:+ join (s :: rest)) with (String "/" (join (s :: rest))).
  simpl all_chars. exact IH.
Qed.

(** A path of plain names is compiled as it stands: it neither ends nor
    starts with a slash. *)
Lemma effective_join (names : list string) :
  Forall (fun n => simple_name n = true) names ->
  effective (join names) = join names
  /\ starts_with_slash (join names) = false.
Proof.
  intros H. split.
  - unfold effective, ends_with_slash. rewrite get_last_char.
    destruct (last_char (join names)) as [c|] eqn:E; [|reflexivity].
    destruct (Ascii.eqb_spec c "/") as [->|]; [|reflexivity].
    exfalso. revert E. clear -H.
    induction H as [|n rest Hn Hrest IH]; [discriminate|].
    simpl. destruct rest as [|m rest'].
    + intros E. apply simple_name_chars in Hn.
      now pose proof (last_char_all _ _ _ Hn E).
    + pose proof (starts_simple_join m rest' (Forall_inv Hrest)) as Hm.
      destruct (join (m :: rest')) as [|d J] eqn:EJ; [discriminate Hm|].
      change ("/" +:+ String d J) with (String "/" (String d J)).
      rewrite (last_char_append n "/" (String d J)). exact IH.
  - destruct H as [|n rest Hn _]; [reflexivity|].
    pose proof (starts_simple_join n rest Hn) as Hs.
    destruct (join (n :: rest)) as [|c r]; [reflexivity|].
    simpl in *. destruct (Ascii.eqb_spec c "/") as [->|]; [|reflexivity].
    discriminate Hs.
Qed.

Lemma length_name_tokens (n : string) (rest : list string) :
  length (name_tokens (n :: rest)) = S (length rest + length rest).
Proof.
  revert n. induction rest as [|m rest IH]; intros n; [reflexivity|].
  change (name_tokens (n :: m :: rest))
    with (("", n) :: ("/", "") :: name_tokens (m :: rest)).
  cbn [length]. rewrite IH. simpl. lia.
Qed.

(** A path of qualified names compiles to one child step per name. *)
Lemma compile_path_steps (steps : list (string * string)) :
  steps <> [] ->
  Forall registered_step steps ->
  compile_path (join (map qname steps)) namespaces
  = Return (Some (map Child (map expanded steps))).
Proof.
  intros Hne H.
  assert (Hnames : Forall (fun n => simple_name n = true) (map qname steps)).
  { apply Forall_fmap. eapply Forall_impl; [exact H|].
    intros s Hs. now apply registered_step_simple. }
  destruct (effective_join _ Hnames) as [Heff Hstart].
  unfold compile_path. rewrite compile_pattern_tokens, Heff, Hstart.
  unfold xpath_tokenizer_re_findall, first_token.
  rewrite (findall_steps_join _ Hnames) by lia.
  destruct steps as [|s0 rest]; [contradiction|].
  apply Forall_cons in H as [Hs0 Hrest].
  assert (Hnext : next namespaces (name_tokens (map qname (s0 :: rest)))
                  = Return (("", expanded s0),
                            tail (name_tokens (map qname (s0 :: rest))))).
  { change (map qname (s0 :: rest)) with (qname s0 :: map qname rest).
    rewrite name_tokens_cons. unfold next.
    now rewrite (qualify_qname s0 Hs0). }
  rewrite Hnext. cbn [Py.bind except_StopIteration].
  rewrite (compile_steps rest Hrest s0 _ Hs0); [reflexivity|].
  change (map qname (s0 :: rest)) with (qname s0 :: map qname rest).
  pose proof (length_name_tokens (qname s0) (map qname rest)) as Hlen.
  rewrite length_map in Hlen.
  destruct (name_tokens (qname s0 :: map qname rest)); simpl in *; lia.
Qed.

Lemma execute_Children (tags : list string) (tree : Element) :
  execute (map Child tags) tree = Return (reach tags [tree]).
Proof.
  unfold execute.
  replace (existsb _ (map Child tags)) with false
    by (induction tags as [|t ts IH]; [reflexivity|exact IH]).
  f_equal. generalize [tree].
  induction tags as [|t ts IH]; intros from; [reflexivity|].
  simpl. apply IH.
Qed.

(** X1. A path of names [prefix:local] joined by slashes, every prefix
    one of the five of the registry and no name a wildcard (a local part
    [*], or one that ends in [}*]), goes down one child level per name
    and matches the tags [{uri}local]; the string accessor reads the
    first element reached in document order and gives [None] when none
    is reached. *)
Theorem qualified_path_lookup (tree : Element)
  (steps : list (string * string)) :
  steps <> [] ->
  Forall registered_step steps ->
  findall tree (join (map qname steps)) namespaces
  = Return (reach (map expanded steps) [tree])
  /\ g_e_v tree (join (map qname steps))
     = match head (reach (map expanded steps) [tree]) with
       | Some el => v <- strip_method (text el) ;; Return (Some v)
       | None => Return None
       end.
Proof.
  intros Hne H.
  assert (Hall : findall tree (join (map qname steps)) namespaces
                 = Return (reach (map expanded steps) [tree])).
  { unfold findall, iterfind. rewrite (compile_path_steps _ Hne H).
    cbn [Py.bind run]. now rewrite execute_Children. }
  split; [exact Hall|].
  unfold g_e_v. rewrite (find_head _ _ _ Hall). reflexivity.
Qed.

Lemma qualified_path_lookup_sample :
  join (map qname [("pskc", "KeyPackage"); ("pskc", "DeviceInfo");
                   ("pskc", "SerialNo")])
  = "pskc:KeyPackage/pskc:DeviceInfo/pskc:SerialNo"
  /\ g_e_v sample_root "pskc:KeyPackage/pskc:DeviceInfo/pskc:SerialNo"
     = Return (Some "987654321").
Proof.
  split; [reflexivity|].
  set (steps := [("pskc", "KeyPackage"); ("pskc", "DeviceInfo");
                 ("pskc", "SerialNo")]).
  assert (Hne : steps <> []) by discriminate.
  assert (Hs : Forall registered_step steps)
    by (repeat (constructor;
                  [split; [simpl; tauto | split; reflexivity]|]);
        constructor).
  destruct (qualified_path_lookup sample_root steps Hne Hs) as [_ Hv].
  exact Hv.
Defined.

(** ** What the accessors can raise *)

Lemma prepare_error (ns : gmap string string) (it : list token) (t : token)
  (e : exn) :
  prepare ns it t = Raise e -> compile_error false e.
Proof.
  unfold prepare, ops.
  destruct (String.eqb t.1 "").
  { destruct (prepare_child_Return ns it t) as (sel & ->). discriminate. }
  destruct (String.eqb t.1 "*"); [discriminate|].
  destruct (String.eqb t.1 "."); [discriminate|].
  destruct (String.eqb t.1 "//").
  - destruct (next ns it) as [[t1 it1]|e1] eqn:H1.
    + destruct (prepare_descendant_next ns it it1 t t1 H1)
        as [->|(sel & ->)]; [now intros [= <-]|discriminate].
    + unfold prepare_descendant. rewrite H1.
      destruct (next_error _ _ _ H1) as [->|(msg & ->)]; simpl;
        [discriminate|now intros [= <-]].
  - destruct (String.eqb t.1 ".."); [now intros [= <-]|].
    destruct (String.eqb t.1 "["); now intros [= <-].
Qed.

Lemma compile_raise (ns : gmap string string) (rounds : nat)
  (it : list token) (t : token) (e : exn) :
  compile rounds ns it t = Raise e -> compile_error false e.
Proof.
  revert it t. induction rounds as [|rounds IH]; intros it t.
  - now intros [= <-].
  - rewrite compile_S.
    destruct (prepare ns it t) as [[sel it1]|e1] eqn:Hp; simpl.
    + destruct (advance ns it1) as [[[t2 it2]|]|e2] eqn:Ha; simpl.
      * destruct (compile rounds ns it2 t2) eqn:Hc; simpl; [discriminate|].
        intros [= <-]. now apply IH in Hc.
      * discriminate.
      * intros [= <-]. now apply advance_error in Ha as (msg & ->).
    + intros [= <-]. now apply prepare_error in Hp.
Qed.

Lemma compile_path_raise (path : string) (ns : gmap string string)
  (e : exn) :
  compile_path path ns = Raise e -> compile_error false e.
Proof.
  unfold compile_path, compile_pattern.
  destruct (starts_with_slash (effective path)); [now intros [= <-]|].
  unfold first_token.
  destruct (next ns _) as [[t it]|e1] eqn:Hn.
  - cbn [Py.bind except_StopIteration].
    destruct (compile _ ns it t) as [sels|e2] eqn:Hc; [discriminate|].
    intros [= <-]. now apply compile_raise in Hc.
  - destruct (next_error _ _ _ Hn) as [->|(msg & ->)];
      [discriminate | now intros [= <-]].
Qed.

(** A compiled path raises nothing but [TypeError] when it is run. *)
Lemma execute_raise (sels : list selector) (tree : Element) (e : exn) :
  execute sels tree = Raise e -> exists msg, e = TypeError msg.
Proof.
  unfold execute. destruct (existsb _ sels); [|discriminate].
  intros [= <-]. eauto.
Qed.

(** [find] raises nothing but the errors of the path compiler and the
    [TypeError] of a path that ends in [//] or has no token. *)
Lemma find_raise (tree : Element) (path : string) (e : exn) :
  find tree path namespaces = Raise e ->
  compile_error false e \/ exists msg, e = TypeError msg.
Proof.
  unfold find, iterfind.
  destruct (compile_path path namespaces) as [[sels|]|e1] eqn:Hc;
    cbn [Py.bind run].
  - destruct (execute sels tree) as [result|e2] eqn:He; [discriminate|].
    intros [= <-]. right. now apply execute_raise in He.
  - intros [= <-]. right. eauto.
  - intros [= <-]. left. now apply compile_path_raise in Hc.
Qed.

(** X2. A result of [None] from any of the three accessors means exactly
    that the lookup found no element: a present element is never
    reported as absent, whatever its text. *)
Theorem none_means_absent (datetime : Type)
  (dateutil_parser_parse : string -> Exc datetime)
  (tree : Element) (path : string) :
  (g_e_v tree path = Return None <-> find tree path namespaces = Return None)
  /\ (g_e_i tree path = Return None
      <-> find tree path namespaces = Return None)
  /\ (g_e_d datetime dateutil_parser_parse tree path = Return None
      <-> find tree path namespaces = Return None).
Proof.
  unfold g_e_v, g_e_i, g_e_d.
  destruct (find tree path namespaces) as [[el|]|e]; simpl.
  - destruct (text el) as [t|]; simpl.
    + destruct (Py.int (strip t)), (dateutil_parser_parse (strip t)); simpl;
        repeat split; discriminate.
    + repeat split; discriminate.
  - repeat split; trivial.
  - repeat split; discriminate.
Qed.

Lemma none_means_absent_sample :
  find sample_key "pskc:Algorithm" namespaces = Return None
  /\ g_e_d Z sample_dateutil sample_key "pskc:Algorithm" = Return None.
Proof.
  split; [reflexivity|].
  apply (none_means_absent Z sample_dateutil sample_key "pskc:Algorithm").
  reflexivity.
Defined.

Lemma accessors_compose (datetime : Type)
  (dateutil_parser_parse : string -> Exc datetime)
  (tree : Element) (path : string) :
  g_e_i tree path = (o <- g_e_v tree path ;; converted Py.int o)
  /\ g_e_d datetime dateutil_parser_parse tree path
     = (o <- g_e_v tree path ;; converted dateutil_parser_parse o).
Proof.
  unfold g_e_v, g_e_i, g_e_d.
  destruct (find tree path namespaces) as [[el|]|e]; simpl;
    [|split; reflexivity..].
  destruct (text el) as [t|]; simpl; split; reflexivity.
Qed.

Lemma g_e_v_stripped (tree : Element) (path r : string) :
  g_e_v tree path = Return (Some r) -> strip r = r.
Proof.
  unfold g_e_v.
  destruct (find tree path namespaces) as [[el|]|e]; simpl; try discriminate.
  destruct (text el) as [t|]; simpl; [|discriminate].
  intros [= <-]. apply strip_strip.
Qed.

(** X3. The integer and the timestamp accessor are the string accessor
    followed by the conversion: they find what it finds, fail where it
    fails, and hand [int] or the date parser exactly the text it
    returns. *)
Theorem typed_accessors_factor (datetime : Type)
  (dateutil_parser_parse : string -> Exc datetime)
  (tree : Element) (path : string) :
  g_e_i tree path = (o <- g_e_v tree path ;; converted Py.int o)
  /\ g_e_d datetime dateutil_parser_parse tree path
     = (o <- g_e_v tree path ;; converted dateutil_parser_parse o).
Proof. apply accessors_compose. Qed.

(** X4. A text returned by the string accessor is the text of the element
    found with the surrounding whitespace trimmed; it carries no
    whitespace at either end, so stripping it again changes nothing. *)
Theorem string_accessor_result (tree : Element) (path r : string) :
  g_e_v tree path = Return (Some r) ->
  exists el t,
    find tree path namespaces = Return (Some el)
    /\ text el = Some t
    /\ trimmed t r
    /\ strip r = r.
Proof.
  unfold g_e_v.
  destruct (find tree path namespaces) as [[el|]|e]; simpl; try discriminate.
  destruct (text el) as [t|] eqn:Ht; simpl; [|discriminate].
  intros [= <-]. exists el, t. repeat split; trivial.
  - apply strip_trimmed.
  - apply strip_strip.
Qed.

Lemma string_accessor_result_sample :
  g_e_v sample_key "pskc:Counter" = Return (Some "42")
  /\ exists el t,
       find sample_key "pskc:Counter" namespaces = Return (Some el)
       /\ text el = Some t /\ trimmed t "42" /\ strip "42" = "42".
Proof.
  split; [reflexivity|].
  apply (string_accessor_result sample_key "pskc:Counter" "42").
  reflexivity.
Defined.

(** X5. The integer accessor returns a number exactly when the string
    accessor returns an integer literal of Python (an optional sign and
    decimal digits, single underscores allowed between digits, no more
    than 4300 digits), and the number is the value of that literal. *)
Theorem integer_accessor_value (tree : Element) (path : string) (n : Z) :
  g_e_i tree path = Return (Some n)
  <-> exists s, g_e_v tree path = Return (Some s) /\ integer_literal s n.
Proof.
  destruct (accessors_compose unit (fun _ => Return tt) tree path)
    as [-> _].
  split.
  - destruct (g_e_v tree path) as [[s|]|e] eqn:Hv; simpl; try discriminate.
    pose proof (g_e_v_stripped _ _ _ Hv) as Hs.
    rewrite <- Hs, int_strip, Hs.
    destruct (signed s) as [m|] eqn:Hm; simpl; [|discriminate].
    intros [= <-]. exists s. split; [reflexivity|]. now apply signed_literal.
  - intros (s & Hv & Hn).
    pose proof (g_e_v_stripped _ _ _ Hv) as Hs.
    rewrite Hv. simpl. rewrite <- Hs, (int_literal s n); [reflexivity|].
    now rewrite Hs.
Qed.

Lemma integer_accessor_value_sample :
  g_e_i grouped_key "pskc:Counter" = Return (Some 1000%Z)
  /\ exists s, g_e_v grouped_key "pskc:Counter" = Return (Some s)
               /\ integer_literal s 1000%Z.
Proof.
  split; [reflexivity|].
  apply (integer_accessor_value grouped_key "pskc:Counter" 1000%Z).
  reflexivity.
Defined.

Lemma lstrip_blank (t : string) :
  all_chars isspace t = true -> lstrip t = "".
Proof.
  induction t as [|c r IH]; [reflexivity|]. simpl.
  intros H. apply andb_true_iff in H as [-> Hr]. now apply IH.
Qed.

Lemma strip_blank (t : string) :
  all_chars isspace t = true -> strip t = "".
Proof. intros H. unfold strip. now rewrite (lstrip_blank _ H). Qed.

(** X6. An element whose text is made of one or more whitespace
    characters and nothing else is present, not absent: the string
    accessor returns the empty string and the integer accessor raises
    [ValueError]. *)
Theorem blank_text (tree : Element) (path : string) (el : Element)
  (t : string) :
  find tree path namespaces = Return (Some el) ->
  text el = Some t ->
  t <> "" ->
  all_chars isspace t = true ->
  g_e_v tree path = Return (Some "")
  /\ exists msg, g_e_i tree path = Raise (ValueError msg).
Proof.
  intros H Ht _ Hb. split.
  - rewrite (g_e_v_text _ _ _ _ H Ht), (strip_blank _ Hb). reflexivity.
  - rewrite (g_e_i_text _ _ _ _ H Ht), (strip_blank _ Hb).
    eexists. reflexivity.
Qed.

Lemma blank_text_sample :
  g_e_v blank_key "pskc:Counter" = Return (Some "")
  /\ exists msg, g_e_i blank_key "pskc:Counter" = Raise (ValueError msg).
Proof.
  apply (blank_text blank_key "pskc:Counter" _ _ eq_refl eq_refl);
    [discriminate|reflexivity].
Defined.

(** X7. The string and the integer accessor raise [AttributeError]
    exactly when the element found has no text: the lookup never raises
    it, and neither does the conversion. *)
Theorem attribute_error_means_no_text (tree : Element) (path : string) :
  ((exists msg, g_e_v tree path = Raise (AttributeError msg))
   <-> exists el, find tree path namespaces = Return (Some el)
                  /\ text el = None)
  /\ ((exists msg, g_e_i tree path = Raise (AttributeError msg))
      <-> exists el, find tree path namespaces = Return (Some el)
                     /\ text el = None).
Proof.
  unfold g_e_v, g_e_i.
  destruct (find tree path namespaces) as [[el|]|e] eqn:Hf; simpl.
  - destruct (text el) as [t|] eqn:Ht; simpl.
    + split; split.
      * intros (msg & [=]).
      * intros (el' & [= <-] & Hn). congruence.
      * intros (msg & H). rewrite int_strip in H.
        destruct (signed_error (strip t)) as [(n & Hn)|(m & Hm)];
          rewrite ?Hn, ?Hm in H; discriminate H.
      * intros (el' & [= <-] & Hn). congruence.
    + split; split; eauto.
  - split; split; try (intros (msg & [=])); intros (el & [=] & _).
  - apply find_raise in Hf.
    split; split; try (intros (el & [=] & _));
      intros (msg & [= ->]); destruct Hf as [[]|(m & [=])].
Qed.

Lemma attribute_error_means_no_text_sample :
  (exists msg, g_e_i sample_key "pskc:Issuer" = Raise (AttributeError msg))
  /\ exists el, find sample_key "pskc:Issuer" namespaces = Return (Some el)
                /\ text el = None.
Proof.
  assert (H : exists el, find sample_key "pskc:Issuer" namespaces
                         = Return (Some el) /\ text el = None)
    by (eexists; split; reflexivity).
  split; [|exact H].
  apply (proj2 (attribute_error_means_no_text sample_key "pskc:Issuer")).
  exact H.
Defined.

(** X8. The integer accessor raises [ValueError] exactly when the element
    found has a text that, trimmed, is no integer literal of Python (an
    optional sign and decimal digits, single underscores allowed between
    digits, no more than 4300 digits); the string accessor never raises
    [ValueError]. *)
Theorem value_error_means_bad_text (tree : Element) (path : string) :
  ((exists msg, g_e_i tree path = Raise (ValueError msg))
   <-> exists el t, find tree path namespaces = Return (Some el)
                    /\ text el = Some t
                    /\ forall n, ~ integer_literal (strip t) n)
  /\ forall msg, g_e_v tree path <> Raise (ValueError msg).
Proof.
  unfold g_e_v, g_e_i.
  destruct (find tree path namespaces) as [[el|]|e] eqn:Hf; simpl.
  - destruct (text el) as [t|] eqn:Ht; simpl.
    + split; [split|intros msg; discriminate].
      * intros (msg & H). exists el, t.
        split; [reflexivity|]. split; [exact Ht|]. intros n Hn.
        rewrite (int_literal t n Hn) in H. discriminate H.
      * intros (el' & t' & [= <-] & Ht' & Hn).
        assert (t' = t) as -> by congruence.
        destruct (int_not_literal t Hn) as (msg & ->).
        eexists. reflexivity.
    + split; [split|intros msg; discriminate].
      * intros (msg & [=]).
      * intros (el' & t' & [= <-] & Ht' & _). congruence.
  - split; [split|intros msg; discriminate].
    + intros (msg & [=]).
    + intros (el & t & [=] & _).
  - apply find_raise in Hf. split; [split|].
    + intros (msg & [= ->]). destruct Hf as [[]|(m & [=])].
    + intros (el & t & [=] & _).
    + intros msg [= ->]. destruct Hf as [[]|(m & [=])].
Qed.

Lemma value_error_means_bad_text_sample :
  (exists msg, g_e_i sample_key "pskc:ResponseLength" = Raise (ValueError msg))
  /\ exists el t,
       find sample_key "pskc:ResponseLength" namespaces = Return (Some el)
       /\ text el = Some t
       /\ forall n, ~ integer_literal (strip t) n.
Proof.
  assert (H : exists el t,
             find sample_key "pskc:ResponseLength" namespaces
             = Return (Some el)
             /\ text el = Some t
             /\ forall n, ~ integer_literal (strip t) n).
  { eexists _, _. split; [reflexivity|]. split; [reflexivity|].
    intros n Hn. apply signed_literal in Hn. discriminate Hn. }
  split; [|exact H].
  apply (proj1 (value_error_means_bad_text sample_key "pskc:ResponseLength")).
  exact H.
Defined.

(** ** More on the container parser *)

Lemma PSKC_init_Return (fs : string -> source) (self : ref)
  (filename : string) (c : PSKC) :
  PSKC_init fs self filename = Return c ->
  exists root, fs filename = Document root /\ c = container_of self root.
Proof.
  destruct (fs filename) as [| |e|root] eqn:H.
  - unfold PSKC_init, ElementTree_parse. rewrite H. discriminate.
  - unfold PSKC_init, ElementTree_parse. rewrite H. discriminate.
  - unfold PSKC_init, ElementTree_parse. rewrite H. discriminate.
  - rewrite (PSKC_init_Document _ _ _ _ H). intros [= <-]. now exists root.
Qed.

(** X10. The MAC descriptor and every key of a parsed container hold a
    reference to that very container. *)
Theorem back_references (fs : string -> source) (self : ref)
  (filename : string) (c : PSKC) :
  PSKC_init fs self filename = Return c ->
  mac_pskc (mac c) = self
  /\ Forall (fun k => key_pskc k = self) (keys c).
Proof.
  intros H. apply PSKC_init_Return in H as (root & _ & ->).
  split; [reflexivity|]. simpl.
  induction (children_named (pskc_name "KeyPackage") root); simpl;
    constructor; trivial.
Qed.

Lemma back_references_sample :
  exists c,
    PSKC_init sample_fs 5%positive "sample.pskcxml" = Return c
    /\ mac_pskc (mac c) = 5%positive
    /\ Forall (fun k => key_pskc k = 5%positive) (keys c).
Proof.
  exists (container_of 5%positive sample_root).
  split; [reflexivity|].
  apply (back_references sample_fs 5%positive "sample.pskcxml").
  reflexivity.
Defined.

Lemma filter_sublist {A : Type} (f : A -> bool) (l : list A) :
  List.filter f l `sublist_of` l.
Proof.
  induction l as [|x l IH]; simpl; [constructor|].
  destruct (f x); now constructor.
Qed.

(** X11. The elements that the keys of a parsed container wrap are the
    children of the root that are tagged as key packages, each as often
    and in the order in which it stands among the children: they are
    what is left of the children when every other child is dropped.  So
    each key's element is such a child and each such child has a key.  A
    key package nested deeper is not collected. *)
Theorem keys_are_children (fs : string -> source) (self : ref)
  (filename : string) (root : Element) (c : PSKC) :
  fs filename = Document root ->
  PSKC_init fs self filename = Return c ->
  map key_package (keys c)
  = List.filter (fun x => String.eqb (tag x) (pskc_name "KeyPackage"))
      (children root)
  /\ map key_package (keys c) `sublist_of` children root
  /\ forall x, In x (map key_package (keys c))
               <-> In x (children root)
                   /\ tag x = pskc_name "KeyPackage".
Proof.
  intros H Hc. rewrite (PSKC_init_Document _ _ _ _ H) in Hc.
  injection Hc as <-. simpl.
  assert (Hm : map key_package
                 (map (mkKey self) (children_named (pskc_name "KeyPackage") root))
               = children_named (pskc_name "KeyPackage") root).
  { induction (children_named (pskc_name "KeyPackage") root) as [|x l IH];
      simpl; [reflexivity | now rewrite IH]. }
  rewrite Hm. split; [reflexivity|]. split; [apply filter_sublist|].
  intros x. unfold children_named. rewrite filter_In, String.eqb_eq.
  reflexivity.
Qed.

Lemma keys_are_children_sample :
  (exists c,
      PSKC_init extra_fs 1%positive "nested.pskcxml" = Return c
      /\ map key_package (keys c) `sublist_of` children nested_root
      /\ In (package "2") (map key_package (keys c))
      /\ ~ In (package "1") (map key_package (keys c)))
  /\ exists c,
       PSKC_init sample_fs 1%positive "sample.pskcxml" = Return c
       /\ map key_package (keys c)
          = [package "987654321"; package "123456789"; package "987654321"].
Proof.
  split.
  - exists (container_of 1%positive nested_root).
    split; [reflexivity|].
    destruct (keys_are_children extra_fs 1%positive "nested.pskcxml"
                nested_root (container_of 1%positive nested_root)
                eq_refl eq_refl) as (_ & Hsub & Hin).
    split; [exact Hsub|]. split.
    + apply Hin. split; [|reflexivity]. right. left. reflexivity.
    + intros H. apply Hin in H as [[H|[H|[]]] _]; discriminate H.
  - exists (container_of 1%positive sample_root).
    split; [reflexivity|].
    exact (proj1 (keys_are_children sample_fs 1%positive "sample.pskcxml"
                    sample_root (container_of 1%positive sample_root)
                    eq_refl eq_refl)).
Defined.

Lemma head_children_named (t : string) (root : Element) :
  match head (children_named t root) with
  | Some e => In e (children root) /\ tag e = t
  | None => Forall (fun child => tag child <> t) (children root)
  end.
Proof.
  unfold children_named.
  induction (children root) as [|x l IH]; simpl; [constructor|].
  destruct (String.eqb_spec (tag x) t) as [E|E]; simpl.
  - split; [now left | exact E].
  - destruct (head (List.filter (fun c => String.eqb (tag c) t) l)).
    + destruct IH. split; [now right | assumption].
    + now constructor.
Qed.

(** X12. The encryption descriptor wraps [None] exactly when the root has
    no [EncryptionKey] child, and otherwise an element that is such a
    child; the same holds for the MAC descriptor and [MACMethod]. *)
Theorem descriptor_elements (fs : string -> source) (self : ref)
  (filename : string) (root : Element) (c : PSKC) :
  fs filename = Document root ->
  PSKC_init fs self filename = Return c ->
  match key_info (encryption c) with
  | Some e => In e (children root) /\ tag e = pskc_name "EncryptionKey"
  | None =>
      Forall (fun child => tag child <> pskc_name "EncryptionKey")
        (children root)
  end
  /\ match mac_method (mac c) with
     | Some m => In m (children root) /\ tag m = pskc_name "MACMethod"
     | None =>
         Forall (fun child => tag child <> pskc_name "MACMethod")
           (children root)
     end.
Proof.
  intros H Hc. rewrite (PSKC_init_Document _ _ _ _ H) in Hc.
  injection Hc as <-. simpl. split; apply head_children_named.
Qed.

Lemma descriptor_elements_sample :
  exists c,
    PSKC_init extra_fs 1%positive "nested.pskcxml" = Return c
    /\ key_info (encryption c) = None
    /\ Forall (fun child => tag child <> pskc_name "EncryptionKey")
         (children nested_root).
Proof.
  exists (container_of 1%positive nested_root).
  split; [reflexivity|]. split; [reflexivity|].
  exact (proj1 (descriptor_elements extra_fs 1%positive "nested.pskcxml"
                  nested_root (container_of 1%positive nested_root)
                  eq_refl eq_refl)).
Defined.

Lemma filter_filter {A : Type} (f g : A -> bool) (l : list A) :
  (forall x, f x = true -> g x = true) ->
  List.filter f (List.filter g l) = List.filter f l.
Proof.
  intros Hfg. induction l as [|x l IH]; simpl; [reflexivity|].
  destruct (g x) eqn:Hg; simpl.
  - now rewrite IH.
  - destruct (f x) eqn:Hf; [|exact IH].
    rewrite (Hfg _ Hf) in Hg. discriminate Hg.
Qed.

Lemma children_named_relevant (t : string) (root : Element) :
  In t container_tags ->
  children_named t root
  = List.filter (fun c => String.eqb (tag c) t) (relevant root).
Proof.
  intros Ht. unfold children_named, relevant. symmetry.
  apply filter_filter. intros x Hx. apply String.eqb_eq in Hx.
  apply existsb_exists. exists t. split; [exact Ht|].
  now apply String.eqb_eq.
Qed.

(** X13. The container depends on nothing in the document but the
    [Version] and [Id] attributes of the root and the root's children
    tagged [EncryptionKey], [MACMethod] or [KeyPackage]: the root's own
    tag and text, its other attributes and its other children are
    ignored. *)
Theorem only_relevant_children (fs1 fs2 : string -> source) (self : ref)
  (file1 file2 : string) (root1 root2 : Element) :
  fs1 file1 = Document root1 ->
  fs2 file2 = Document root2 ->
  attrib root1 !! "Version" = attrib root2 !! "Version" ->
  attrib root1 !! "Id" = attrib root2 !! "Id" ->
  relevant root1 = relevant root2 ->
  PSKC_init fs1 self file1 = PSKC_init fs2 self file2.
Proof.
  intros H1 H2 Hv Hi Hr.
  rewrite (PSKC_init_Document _ _ _ _ H1), (PSKC_init_Document _ _ _ _ H2).
  unfold container_of. rewrite Hv, Hi.
  rewrite !(children_named_relevant _ root1), Hr,
    <- !(children_named_relevant _ root2);
    [reflexivity | simpl; tauto..].
Qed.

Lemma only_relevant_children_sample :
  tag sample_root <> tag sample_root_variant
  /\ children sample_root <> children sample_root_variant
  /\ PSKC_init sample_fs 1%positive "sample.pskcxml"
     = PSKC_init extra_fs 1%positive "variant.pskcxml".
Proof.
  split; [discriminate|]. split; [discriminate|].
  apply (only_relevant_children sample_fs extra_fs 1%positive
           "sample.pskcxml" "variant.pskcxml" sample_root
           sample_root_variant); reflexivity.
Defined.

Lemma append_cancel (a l m : string) : a +:+ l = a +:+ m -> l = m.
Proof.
  induction a as [|c a IH]; [trivial|].
  rewrite !append_String. intros [= H]. now apply IH.
Qed.

(** X14. Two names written with prefixes of the registry denote the same
    tag only when they are the same name: no two prefixes share a
    namespace, so a lookup by one prefix cannot select an element of
    another. *)
Theorem qualified_names_distinct (step1 step2 : string * string) :
  In step1.1 registered_prefixes ->
  In step2.1 registered_prefixes ->
  expanded step1 = expanded step2 ->
  step1 = step2.
Proof.
  destruct step1 as [p l], step2 as [q m]. simpl. intros Hp Hq.
  apply (registered_cases p
           (fun p => expanded (p, l) = expanded (q, m) -> (p, l) = (q, m)) Hp);
    apply (registered_cases q
             (fun q => expanded (_, l) = expanded (q, m) -> (_, l) = (q, m))
             Hq);
    intros H; try reflexivity;
    first [ unfold expanded in H; cbn [fst snd] in H;
            do 3 apply append_cancel in H; now subst
          | exfalso; vm_compute in H; discriminate H ].
Qed.

Lemma qualified_names_distinct_sample :
  expanded ("xenc", "EncryptedKey") <> expanded ("xenc11", "EncryptedKey").
Proof.
  intros H.
  apply (qualified_names_distinct ("xenc", "EncryptedKey")
           ("xenc11", "EncryptedKey")) in H;
    [discriminate H | simpl; tauto | simpl; tauto].
Defined.
